(** * Anubhava: identity store and keyword chatbot

    A shallow embedding of [face_recognition_module.py] (class
    [FaceRecognitionManager]) and of [chatbot.py] (class [ChatbotManager]),
    with the properties of the specification stated and settled against it.

    Conventions of the embedding.
    - A Python [str] is a Rocq [string]; a character is read as the code
      point of the same number (0..255).  [str.lower], [str.strip] and the
      [in] operator on strings are written out for that range.
    - A Python float distance is a rational ([Q]).
    - A Python [dict] whose iteration order matters is an association list
      in insertion order; [session_context], which is only looked up by key,
      is a [gmap].
    - Methods that touch [self], the disk, the camera or the mutex are
      computations of a small monad over a [World], whose outcome is a
      normal return, a raised exception, or a thread blocked for ever.
    - The detector and the encoder of [cv2] and [face_recognition] are
      functions of the environment; the frames on which they raise during
      a registration are marked by the environment too. *)

From Stdlib Require Import QArith Qabs Ascii String.
From stdpp Require Import base option list strings gmap.

Local Open Scope string_scope.
Local Open Scope list_scope.
Local Open Scope Z_scope.

(* ===================================================================== *)
(** * Python string primitives (code points 0..255)                       *)
(* ===================================================================== *)

Module PyStr.

(** [c.isspace()] for a single code point below 256. *)
Definition isspace (c : ascii) : bool :=
  let n := nat_of_ascii c in
  ((9 <=? n) && (n <=? 13) || (28 <=? n) && (n <=? 32)
   || (n =? 133) || (n =? 160))%nat.

(** [c.lower()] for a single code point below 256: A-Z and the Latin-1
    capitals (all of U+00C0..U+00DE but the multiplication sign). *)
Definition lower_char (c : ascii) : ascii :=
  let n := nat_of_ascii c in
  (if (65 <=? n) && (n <=? 90)
      || (192 <=? n) && (n <=? 222) && negb (n =? 215)
   then ascii_of_nat (n + 32) else c)%nat.

Fixpoint lower (s : string) : string :=
  match s with
  | EmptyString => EmptyString
  | String c r => String (lower_char c) (lower r)
  end.

Fixpoint lstrip (s : string) : string :=
  match s with
  | EmptyString => EmptyString
  | String c r => if isspace c then lstrip r else s
  end.

Fixpoint rstrip (s : string) : string :=
  match s with
  | EmptyString => EmptyString
  | String c r =>
      match rstrip r with
      | EmptyString => if isspace c then EmptyString else String c EmptyString
      | r' => String c r'
      end
  end.

Definition strip (s : string) : string := rstrip (lstrip s).

(** [kw in msg]: substring containment. *)
Fixpoint contains (kw msg : string) : bool :=
  String.prefix kw msg
  || match msg with
     | EmptyString => false
     | String _ r => contains kw r
     end.

(** Truth value of a string, and of an optional string ([None] or [str]). *)
Definition truthy (s : string) : bool :=
  match s with EmptyString => false | _ => true end.

Definition truthy_opt (o : option string) : bool :=
  match o with Some s => truthy s | None => false end.

(** A text made of whitespace only (the empty text included). *)
Fixpoint whitespace_only (s : string) : bool :=
  match s with
  | EmptyString => true
  | String c r => isspace c && whitespace_only r
  end.

End PyStr.

(* ===================================================================== *)
(** * chatbot.py                                                          *)
(* ===================================================================== *)

Module Chatbot.
Import PyStr.

(** One entry of [conversation_history]. *)
Record turn := Turn {
  t_user : string;
  t_message : string;
  t_timestamp : string
}.

(** One value of [session_context]. *)
Record context := Context {
  message_count : Z;
  topics : list string
}.

Record ChatbotManager := Manager {
  conversation_history : list turn;
  session_context : gmap string context
}.

(** What the outside world supplies to one call of [get_response]:
    [datetime.now().isoformat()] and the raw draw behind [random.choice]. *)
Record Env := { now : string; draw : nat }.

(** [self.responses], in the order it is written. *)
Definition responses : list (string * list string) :=
  [ ("greetings",
     [ "Hello! It's great to see you! How can I help you today?";
       "Hi there! I'm excited to chat with you. What's on your mind?";
       "Greetings! I'm here and ready to assist you with anything you need.";
       "Hey! Welcome back! What would you like to talk about?" ]);
    ("personal_questions",
     [ "That's a thoughtful question about me. I'm an AI assistant created to help and chat with people like you.";
       "I'm here to be helpful and engaging. What I find most interesting is learning about the people I talk with!";
       "As an AI, I don't have personal experiences like humans do, but I enjoy our conversations and helping however I can." ]);
    ("compliments",
     [ "Thank you so much! That means a lot to me. You seem pretty awesome yourself!";
       "That's very kind of you to say! I really appreciate it.";
       "You're too kind! I'm just happy I can be helpful to you." ]);
    ("questions",
     [ "That's a fascinating question! Let me think about that for a moment...";
       "Great question! I'd be happy to help you explore that topic.";
       "Interesting! That's something worth discussing in detail.";
       "I love thoughtful questions like that. Here's what I think..." ]);
    ("help_requests",
     [ "I'm absolutely here to help! What specifically can I assist you with?";
       "Of course! I'd be delighted to help you with that.";
       "That's exactly what I'm here for! Let me see how I can help." ]);
    ("goodbye",
     [ "Goodbye! It was wonderful chatting with you. Have an amazing day!";
       "Take care! I really enjoyed our conversation. Until next time!";
       "See you later! Thanks for the great chat - come back anytime!";
       "Farewell! Hope to see you again soon!" ]);
    ("weather",
     [ "I don't have access to current weather data, but I'd recommend checking a weather app or website for the most accurate information!";
       "For the most up-to-date weather information, I'd suggest checking your local weather service or a reliable weather app." ]);
    ("time",
     [ "I don't have access to the current time, but you can check your device's clock or ask your system for the time!";
       "For the current time, I'd recommend checking your computer or phone's clock display." ]);
    ("appreciation",
     [ "You're very welcome! I'm so glad I could help.";
       "It's my pleasure! That's what I'm here for.";
       "Happy to help! Feel free to ask if you need anything else." ]);
    ("default",
     [ "That's interesting! Tell me more about what you're thinking.";
       "I'd love to hear more about that. What's your perspective?";
       "That's a good point. What made you think of that?";
       "Hmm, that's worth exploring. What's your experience with that?";
       "I find that topic fascinating. What's your take on it?" ]) ].

(** [self.keywords], in the order it is written (the order in which
    [.items()] enumerates it). *)
Definition keywords : list (string * list string) :=
  [ ("greetings", ["hello"; "hi"; "hey"; "greetings"; "good morning";
                   "good afternoon"; "good evening"]);
    ("personal_questions", ["who are you"; "what are you";
                            "tell me about yourself"; "your name"]);
    ("compliments", ["thank you"; "thanks"; "good job"; "well done";
                     "excellent"; "amazing"; "awesome"]);
    ("questions", ["what"; "how"; "why"; "when"; "where"; "who"; "?"]);
    ("help_requests", ["help"; "assist"; "support"; "can you"; "could you";
                       "would you"]);
    ("goodbye", ["bye"; "goodbye"; "see you"; "farewell"; "later";
                 "take care"]);
    ("weather", ["weather"; "temperature"; "rain"; "sunny"; "cloudy";
                 "storm"]);
    ("time", ["time"; "clock"; "hour"; "minute"; "what time"]);
    ("appreciation", ["thank you"; "thanks"; "appreciate"; "grateful"]) ].

(** ** Insertion-ordered dictionaries *)

(** [d[k] = v]: an existing key keeps its place, a new key goes last. *)
Fixpoint dict_set {V} (d : list (string * V)) (k : string) (v : V)
  : list (string * V) :=
  match d with
  | [] => [(k, v)]
  | (k', v') :: r =>
      if String.eqb k' k then (k', v) :: r else (k', v') :: dict_set r k v
  end.

(** [d.get(k)]. *)
Fixpoint dict_get {V} (d : list (string * V)) (k : string) : option V :=
  match d with
  | [] => None
  | (k', v) :: r => if String.eqb k' k then Some v else dict_get r k
  end.

Definition dict_keys {V} (d : list (string * V)) : list string := d.*1.

(** ** [max(iterable, key=...)]: the first element whose key is maximal *)

Fixpoint max_from {A} (key : A → Z) (best : A) (l : list A) : A :=
  match l with
  | [] => best
  | x :: r => if key best <? key x then max_from key x r
              else max_from key best r
  end.

Definition py_max {A} (key : A → Z) (l : list A) : option A :=
  match l with
  | [] => None
  | x :: r => Some (max_from key x r)
  end.

(** ** [_categorize_message]

    The method first splits the message into [message_words], which it
    never uses; the split is left out. *)

(** The inner loop: one point for each keyword found in the message. *)
Definition score (kws : list string) (message : string) : Z :=
  fold_left (λ sc kw, if contains kw message then sc + 1 else sc) kws 0.

(** The outer loop, for a keyword table [kwtable]. *)
Definition category_scores_of (kwtable : list (string * list string))
    (message : string) : list (string * Z) :=
  fold_left (λ d '(category, kws), dict_set d category (score kws message))
            kwtable [].

(** [category_scores.get] as a sort key; every key handed to it by [max]
    is a key of [category_scores], so the lookup does not miss. *)
Definition score_key (d : list (string * Z)) (c : string) : Z :=
  default 0 (dict_get d c).

Definition categorize_with (kwtable : list (string * list string))
    (message : string) : string :=
  let category_scores := category_scores_of kwtable message in
  let fall_through :=
    if contains "?" message then "questions"
    else if existsb (λ word, contains word message)
                    ["help"; "assist"; "support"]
         then "help_requests"
         else "default" in
  match py_max (score_key category_scores) (dict_keys category_scores) with
  | Some best_category =>
      if 0 <? score_key category_scores best_category
      then best_category else fall_through
  | None => fall_through
  end.

Definition _categorize_message (message : string) : string :=
  categorize_with keywords message.

(** ** [get_response] *)

(** [random.choice(seq)]: [None] stands for the [IndexError] raised on an
    empty sequence. *)
Definition random_choice (e : Env) (l : list string) : option string :=
  match l with
  | [] => None
  | _ => l !! (draw e mod length l)%nat
  end.

Definition empty_prompt : string :=
  "I didn't catch that. Could you please say something?".

(** The update of [session_context] at the head of [get_response]. *)
Definition bump_context (user_name : option string)
    (ctx : gmap string context) : gmap string context :=
  match user_name with
  | Some u =>
      if truthy u then
        let ctx1 := match ctx !! u with
                    | None => <[u := Context 0 []]> ctx
                    | Some _ => ctx
                    end in
        match ctx1 !! u with
        | Some c => <[u := Context (message_count c + 1) (topics c)]> ctx1
        | None => ctx1
        end
      else ctx
  | None => ctx
  end.

(** [user_name or 'Unknown']. *)
Definition speaker (user_name : option string) : string :=
  match user_name with
  | Some u => if truthy u then u else "Unknown"
  | None => "Unknown"
  end.

(** [get_response], with the categorizer it calls as a parameter.  The
    result is the response, or [None] when an exception escapes. *)
Definition get_response_with (categorize : string → string) (e : Env)
    (message : string) (user_name : option string) (s : ChatbotManager)
  : option string * ChatbotManager :=
  let history :=
    conversation_history s ++ [Turn (speaker user_name) message (now e)] in
  let ctx := bump_context user_name (session_context s) in
  let s' := Manager history ctx in
  let message_lower := strip (lower message) in
  if negb (truthy message_lower) then (Some empty_prompt, s')
  else
    let response_category := categorize message_lower in
    let pool := match dict_get responses response_category with
                | Some l => l
                | None => default [] (dict_get responses "default")
                end in
    match random_choice e pool with
    | None => (None, s')
    | Some base_response =>
        let personalised :=
          match user_name with
          | Some u =>
              if truthy u && negb (String.eqb response_category "goodbye")
              then
                if String.eqb response_category "greetings"
                   && (default 0 (message_count <$> ctx !! u) =? 1)
                then "Hello " +:+ u +:+ "! " +:+ base_response
                else if existsb (String.eqb response_category)
                                ["questions"; "help_requests"]
                then base_response +:+ " What do you think, " +:+ u +:+ "?"
                else base_response
              else base_response
          | None => base_response
          end in
        (Some personalised, s')
    end.

Definition get_response := get_response_with _categorize_message.

(** [get_user_stats]. *)
Definition get_user_stats (user_name : string) (s : ChatbotManager)
  : context :=
  default (Context 0 []) (session_context s !! user_name).

(** ** Vocabulary of the statements *)

(** The categories in the order [self.keywords] enumerates them. *)
Definition categories : list string := dict_keys keywords.

(** The keyword score of one category of the table for a message. *)
Definition category_score (message category : string) : Z :=
  score (default [] (dict_get keywords category)) message.

(** No keyword of the table occurs in the message, the keywords equal to
    [allowed] apart. *)
Definition no_keyword_but (allowed : option string) (message : string)
  : bool :=
  forallb (λ '(_, kws),
             forallb (λ kw, bool_decide (Some kw = allowed)
                            || negb (contains kw message)) kws)
          keywords.

(** No keyword of the table occurs in the message. *)
Definition no_keyword (message : string) : bool :=
  no_keyword_but None message.

(** The turn counter [get_user_stats] reports for a name. *)
Definition turns_of (user_name : string) (s : ChatbotManager) : Z :=
  message_count (get_user_stats user_name s).

(** ** The other methods of [ChatbotManager] *)

(** [get_conversation_history(user_name)]. *)
Definition get_conversation_history (user_name : option string)
    (s : ChatbotManager) : list turn :=
  match user_name with
  | Some u =>
      if truthy u
      then filter (λ msg, t_user msg = u) (conversation_history s)
      else conversation_history s
  | None => conversation_history s
  end.

(** [clear_history(user_name)]. *)
Definition clear_history (user_name : option string) (s : ChatbotManager)
  : ChatbotManager :=
  match user_name with
  | Some u =>
      if truthy u
      then Manager (filter (λ msg, t_user msg ≠ u) (conversation_history s))
                   (delete u (session_context s))
      else Manager [] ∅
  | None => Manager [] ∅
  end.

(** The canned responses of a category, as [get_response] looks them up. *)
Definition canned (category : string) : list string :=
  match dict_get responses category with
  | Some l => l
  | None => default [] (dict_get responses "default")
  end.

End Chatbot.


(* ===================================================================== *)
(** * face_recognition_module.py                                          *)
(* ===================================================================== *)

Module FaceRecognition.
Import PyStr.

(** What the module takes from [cv2], [face_recognition] and [numpy]: the
    detector and encoder are capabilities of the environment, never
    inspected by the module.  [fr_raises frame] says that [cv2.cvtColor],
    [face_locations] or [face_encodings] raises on the full-size frame that
    [register_new_user] hands to them (an empty image, for one);
    [identify_face] works on the half-size copy of a frame whose size it has
    checked, where the calls are taken to return. *)
Class Vision := {
  Sig : Type;                               (* a face encoding *)
  Frame : Type;                             (* an image *)
  Location : Type;                          (* a face bounding box *)
  frame_size : Frame → nat;                 (* [frame.size] *)
  cv2_resize_half : Frame → Frame;          (* [cv2.resize(.., fx=0.5, fy=0.5)] *)
  cv2_bgr2rgb : Frame → Frame;              (* [cv2.cvtColor(.., COLOR_BGR2RGB)] *)
  fr_face_locations : Frame → list Location;
  fr_face_encodings : Frame → list Location → list Sig;
  fr_distance : Sig → Sig → Q;              (* distance of two encodings *)
  fr_raises : Frame → bool                  (* a library call raises *)
}.

(** [x < y] on distances. *)
Definition Qltb (x y : Q) : bool := negb (Qle_bool y x).

(** [self.recognition_threshold = 0.6]. *)
Definition recognition_threshold : Q := 6 # 10.

Section Manager.
Context `{Vision}.

(** ** The world a method runs in *)

(** What [pickle.dump] writes: a dict whose keys may be missing when the
    file comes from elsewhere ([data.get(key, [])]). *)
Record pickled := Pickled {
  p_encodings : option (list Sig);
  p_names : option (list string);
  p_timestamp : option string
}.

(** A file at [database_path]: something [pickle.load] or [.get] rejects,
    or a pickled dict. *)
Inductive file := Corrupt | Pickle (d : pickled).

(** How the operating system treats the next write of the database. *)
Inductive io_fault := NoFault | RenameFails | OpenFails | DumpFails.

(** Events of one thread on the shared store and its mutex. *)
Inductive event := EvLock | EvUnlock | EvRead | EvWrite.

(** The attributes of [self]; [mutex_held] is true while the running thread
    holds [self.mutex]. *)
Record Manager := mkManager {
  known_encodings : list Sig;
  known_names : list string;
  face_locations : list Location;
  face_encodings : list Sig;
  face_names : list (option string);
  mutex_held : bool
}.

Record Disk := mkDisk {
  db_file : option file;         (* [database_path] *)
  backup_file : option file;     (* [database_path + ".backup"] *)
  disk_fault : io_fault;
  clock : string                 (* [datetime.now().isoformat()] *)
}.

(** The capture device: what the coming [cap.read()] calls deliver
    ([None]: [ret] is false), and whether a handle is open. *)
Record Camera := mkCamera {
  feed : list (option Frame);
  is_open : bool
}.

Record World := mkWorld {
  self : Manager;
  disk : Disk;
  camera : Camera;
  trace : list event
}.

Definition with_self (f : Manager → Manager) (w : World) : World :=
  mkWorld (f (self w)) (disk w) (camera w) (trace w).

Definition with_disk (f : Disk → Disk) (w : World) : World :=
  mkWorld (self w) (f (disk w)) (camera w) (trace w).

Definition with_camera (f : Camera → Camera) (w : World) : World :=
  mkWorld (self w) (disk w) (f (camera w)) (trace w).

Definition with_event (e : event) (w : World) : World :=
  mkWorld (self w) (disk w) (camera w) (trace w ++ [e]).

Definition put_known_encodings (v : list Sig) (m : Manager) : Manager :=
  mkManager v (known_names m) (face_locations m) (face_encodings m)
            (face_names m) (mutex_held m).

Definition put_known_names (v : list string) (m : Manager) : Manager :=
  mkManager (known_encodings m) v (face_locations m) (face_encodings m)
            (face_names m) (mutex_held m).

Definition put_face_locations (v : list Location) (m : Manager) : Manager :=
  mkManager (known_encodings m) (known_names m) v (face_encodings m)
            (face_names m) (mutex_held m).

Definition put_face_encodings (v : list Sig) (m : Manager) : Manager :=
  mkManager (known_encodings m) (known_names m) (face_locations m) v
            (face_names m) (mutex_held m).

Definition put_face_names (v : list (option string)) (m : Manager) : Manager :=
  mkManager (known_encodings m) (known_names m) (face_locations m)
            (face_encodings m) v (mutex_held m).

Definition put_mutex_held (v : bool) (m : Manager) : Manager :=
  mkManager (known_encodings m) (known_names m) (face_locations m)
            (face_encodings m) (face_names m) v.

Definition put_db_file (v : option file) (d : Disk) : Disk :=
  mkDisk v (backup_file d) (disk_fault d) (clock d).

Definition put_backup_file (v : option file) (d : Disk) : Disk :=
  mkDisk (db_file d) v (disk_fault d) (clock d).

(** ** The monad of methods *)

(** A method returns, raises, or blocks for ever in [mutex.lock()]. *)
Inductive outcome (A : Type) :=
| Returned (a : A) (w : World)
| Raised (w : World)
| Blocked (w : World).
Global Arguments Returned {A} a w.
Global Arguments Raised {A} w.
Global Arguments Blocked {A} w.

Definition M (A : Type) : Type := World → outcome A.

Definition ret {A} (a : A) : M A := λ w, Returned a w.

Definition bind {A B} (m : M A) (k : A → M B) : M B :=
  λ w, match m w with
       | Returned a w' => k a w'
       | Raised w' => Raised w'
       | Blocked w' => Blocked w'
       end.

Definition raise {A} : M A := λ w, Raised w.

(** [try: body except Exception: handler]. *)
Definition try_except {A} (body handler : M A) : M A :=
  λ w, match body w with
       | Raised w' => handler w'
       | o => o
       end.

(** [try: body finally: fin]; a blocked body never reaches [fin]. *)
Definition try_finally {A} (body : M A) (fin : M unit) : M A :=
  λ w, match body w with
       | Returned a w' =>
           match fin w' with
           | Returned _ w'' => Returned a w''
           | Raised w'' => Raised w''
           | Blocked w'' => Blocked w''
           end
       | Raised w' =>
           match fin w' with
           | Returned _ w'' => Raised w''
           | Raised w'' => Raised w''
           | Blocked w'' => Blocked w''
           end
       | Blocked w' => Blocked w'
       end.

#[global] Instance M_ret : MRet M := @ret.
#[global] Instance M_bind : MBind M := λ A B k m, bind m k.

(** [for x in l: body x]. *)
Fixpoint for_each {A} (l : list A) (body : A → M unit) : M unit :=
  match l with
  | [] => ret tt
  | x :: r => body x;; for_each r body
  end.

(** A [for] loop that updates local variables [acc]. *)
Fixpoint for_fold {A B} (l : list A) (acc : B) (body : A → B → M B) : M B :=
  match l with
  | [] => ret acc
  | x :: r => acc' ← body x acc; for_fold r acc' body
  end.

(** [o] or raise ([IndexError], [ValueError]). *)
Definition or_raise {A} (o : option A) : M A :=
  match o with Some a => ret a | None => raise end.

(** ** Primitives *)

(** [QMutex] is not recursive: a second [lock()] by the thread that holds
    it never returns. *)
Definition mutex_lock : M unit :=
  λ w, if mutex_held (self w) then Blocked w
       else Returned tt (with_event EvLock (with_self (put_mutex_held true) w)).

Definition mutex_unlock : M unit :=
  λ w, Returned tt (with_event EvUnlock (with_self (put_mutex_held false) w)).

Definition read_known_encodings : M (list Sig) :=
  λ w, Returned (known_encodings (self w)) (with_event EvRead w).

Definition read_known_names : M (list string) :=
  λ w, Returned (known_names (self w)) (with_event EvRead w).

Definition write_known_encodings (v : list Sig) : M unit :=
  λ w, Returned tt (with_event EvWrite (with_self (put_known_encodings v) w)).

Definition write_known_names (v : list string) : M unit :=
  λ w, Returned tt (with_event EvWrite (with_self (put_known_names v) w)).

Definition modify_self (f : Manager → Manager) : M unit :=
  λ w, Returned tt (with_self f w).

Definition get_self {A} (f : Manager → A) : M A :=
  λ w, Returned (f (self w)) w.

(** [os.path.exists(self.database_path)]. *)
Definition os_path_exists : M bool :=
  λ w, Returned (bool_decide (is_Some (db_file (disk w)))) w.

(** [open(path, 'rb')] then [pickle.load(f)]. *)
Definition pickle_load : M pickled :=
  λ w, match db_file (disk w) with
       | Some (Pickle d) => Returned d w
       | Some Corrupt => Raised w
       | None => Raised w
       end.

(** [os.rename(path, path + ".backup")]. *)
Definition os_rename_to_backup : M unit :=
  λ w, match disk_fault (disk w) with
       | RenameFails => Raised w
       | _ => Returned tt
                (with_disk (λ d, put_db_file None
                                   (put_backup_file (db_file d) d)) w)
       end.

(** [open(path, 'wb')] then [pickle.dump(data, f)]: a failed [open] leaves
    the path as it is, a failed [dump] leaves a truncated file. *)
Definition open_wb_dump (data : pickled) : M unit :=
  λ w, match disk_fault (disk w) with
       | OpenFails => Raised w
       | DumpFails => Raised (with_disk (put_db_file (Some Corrupt)) w)
       | _ => Returned tt (with_disk (put_db_file (Some (Pickle data))) w)
       end.

Definition datetime_now : M string := λ w, Returned (clock (disk w)) w.

(** [cv2.VideoCapture(0)], [cap.read()], [cap.release()]. *)
Definition video_capture : M unit :=
  λ w, Returned tt (with_camera (λ c, mkCamera (feed c) true) w).

Definition cap_read : M (option Frame) :=
  λ w, match feed (camera w) with
       | [] => Returned None w
       | fr :: rest =>
           Returned fr (with_camera (λ c, mkCamera rest (is_open c)) w)
       end.

Definition cap_release : M unit :=
  λ w, Returned tt (with_camera (λ c, mkCamera (feed c) false) w).

(** ** numpy and face_recognition on lists *)

(** [face_recognition.face_distance(known, enc)]. *)
Definition face_distance (known : list Sig) (enc : Sig) : list Q :=
  map (λ k, fr_distance k enc) known.

(** [face_recognition.compare_faces(known, enc, tolerance)]. *)
Definition compare_faces (known : list Sig) (enc : Sig) (tolerance : Q)
  : list bool :=
  map (λ d, Qle_bool d tolerance) (face_distance known enc).

(** [np.min]: [None] is the [ValueError] on an empty array. *)
Definition np_min (l : list Q) : option Q :=
  match l with
  | [] => None
  | x :: r => Some (fold_left (λ m y, if Qltb y m then y else m) r x)
  end.

(** [np.argmin]: the first index of the minimum. *)
Fixpoint argmin_from (besti : nat) (best : Q) (i : nat) (l : list Q) : nat :=
  match l with
  | [] => besti
  | y :: r => if Qltb y best then argmin_from i y (S i) r
              else argmin_from besti best (S i) r
  end.

Definition np_argmin (l : list Q) : option nat :=
  match l with
  | [] => None
  | x :: r => Some (argmin_from 0%nat x 1%nat r)
  end.

(** [list.index(x)]: the first position of [x]. *)
Fixpoint list_index (x : string) (l : list string) : option nat :=
  match l with
  | [] => None
  | y :: r => if String.eqb y x then Some 0%nat else S <$> list_index x r
  end.

(** [list.pop(i)] for [i >= 0]: [None] is the [IndexError]. *)
Definition list_pop {A} (i : nat) (l : list A) : option (list A) :=
  if (i <? length l)%nat then Some (delete i l) else None.


Definition append_known_encoding (e : Sig) : M unit :=
  λ w, Returned tt
         (with_event EvWrite
            (with_self (λ m, put_known_encodings (known_encodings m ++ [e]) m) w)).

Definition append_known_name (n : string) : M unit :=
  λ w, Returned tt
         (with_event EvWrite
            (with_self (λ m, put_known_names (known_names m ++ [n]) m) w)).

Definition pop_known_names (i : nat) : M unit :=
  λ w, match list_pop i (known_names (self w)) with
       | Some l => Returned tt
                     (with_event EvWrite (with_self (put_known_names l) w))
       | None => Raised (with_event EvRead w)
       end.

Definition pop_known_encodings (i : nat) : M unit :=
  λ w, match list_pop i (known_encodings (self w)) with
       | Some l => Returned tt
                     (with_event EvWrite (with_self (put_known_encodings l) w))
       | None => Raised (with_event EvRead w)
       end.

(** ** The methods of [FaceRecognitionManager] *)

Definition load_database : M unit :=
  mutex_lock;;
  try_finally
    (try_except
       (ex ← os_path_exists;
        if ex : bool then
          data ← pickle_load;
          write_known_encodings (default [] (p_encodings data));;
          write_known_names (default [] (p_names data))
        else
          write_known_encodings [];;
          write_known_names [])
       (write_known_encodings [];;
        write_known_names []))
    mutex_unlock.

Definition save_database : M unit :=
  mutex_lock;;
  try_finally
    (try_except
       (encodings ← read_known_encodings;
        names ← read_known_names;
        timestamp ← datetime_now;
        let data := Pickled (Some encodings) (Some names) (Some timestamp) in
        ex ← os_path_exists;
        (if ex : bool then os_rename_to_backup else ret tt);;
        open_wb_dump data)
       (ret tt))
    mutex_unlock.

(** [__init__]: fresh attributes, then [load_database()]. *)
Definition init : M unit :=
  modify_self (λ _, mkManager [] [] [] [] [] false);;
  load_database.

(** The body of the loop of [identify_face] over the faces of a frame: the
    name matched to one encoding is appended to [self.face_names]. *)
Definition match_face (face_encoding : Sig) : M unit :=
  known ← read_known_encodings;
  let matches := compare_faces known face_encoding recognition_threshold in
  guard ← (if bool_decide (true ∈ matches)
           then known' ← read_known_encodings;
                ret (0 <? length known')%nat
           else ret false);
  name ← (if guard : bool then
            known'' ← read_known_encodings;
            let face_distances := face_distance known'' face_encoding in
            best_match_index ← or_raise (np_argmin face_distances);
            m ← or_raise (matches !! best_match_index);
            d ← or_raise (face_distances !! best_match_index);
            if (m : bool) && Qltb d recognition_threshold then
              names ← read_known_names;
              n ← or_raise (names !! best_match_index);
              ret (Some n)
            else ret None
          else ret None);
  modify_self (λ m, put_face_names (face_names m ++ [name]) m).

(** [identify_face(frame)]; the rectangles and labels drawn on the frame do
    not touch the manager and are left out. *)
Definition identify_face (frame : option Frame) : M (option string) :=
  match frame with
  | None => ret None
  | Some frame =>
      if (frame_size frame =? 0)%nat then ret None
      else
        let small_frame := cv2_resize_half frame in
        let rgb_small_frame := cv2_bgr2rgb small_frame in
        modify_self (put_face_locations (fr_face_locations rgb_small_frame));;
        locs ← get_self face_locations;
        match locs with
        | [] => ret None
        | _ =>
            modify_self
              (put_face_encodings (fr_face_encodings rgb_small_frame locs));;
            modify_self (put_face_names []);;
            encs ← get_self face_encodings;
            for_each encs match_face;;
            names ← get_self face_names;
            match names with
            | Some n :: _ => if truthy n then ret (Some n) else ret None
            | _ => ret None
            end
        end
  end.

(** [min_distance < best_confidence], where [None] is [float('inf')]. *)
Definition below (min_distance : Q) (best_confidence : option Q) : bool :=
  match best_confidence with
  | None => true
  | Some b => Qltb min_distance b
  end.

(** One turn of the capture loop of [register_new_user]; the local
    variables are [(best_encoding, best_confidence)].  The calls into
    [cv2] and [face_recognition] come before any access to the store and
    raise on the frames [fr_raises] marks; [face_distance], plain
    arithmetic on encodings, raises on none. *)
Definition register_attempt (attempt : nat) (best : option Sig * option Q)
  : M (option Sig * option Q) :=
  fr ← cap_read;
  match fr with
  | None => ret best
  | Some frame =>
      if fr_raises frame then raise
      else
      let rgb_frame := cv2_bgr2rgb frame in
      let locs := fr_face_locations rgb_frame in
      if (length locs =? 1)%nat then
        match fr_face_encodings rgb_frame locs with
        | [] => ret best
        | encoding :: _ =>
            known ← read_known_encodings;
            min_distance ←
              (if (0 <? length known)%nat
               then known' ← read_known_encodings;
                    or_raise (np_min (face_distance known' encoding))
               else ret 0%Q);
            if below min_distance (snd best)
            then ret (Some encoding, Some min_distance)
            else ret best
        end
      else ret best
  end.

(** [register_new_user(name, max_attempts)].  The [try] block yields
    [Some b] when it executes [return b] and [None] when it runs off its
    end (or its handler does, after an exception in the loop), which leads
    to the final [return False]. *)
Definition register_new_user (name : string) (max_attempts : nat) : M bool :=
  video_capture;;
  r ← try_finally
        (try_except
           (best ← for_fold (seq 0 max_attempts) (None, None) register_attempt;
            match fst best with
            | Some best_encoding =>
                append_known_encoding best_encoding;;
                append_known_name name;;
                save_database;;
                ret (Some true)
            | None => ret None
            end)
           (ret None))
        cap_release;
  ret (default false r).

(** [remove_user(name)], in the same style. *)
Definition remove_user (name : string) : M bool :=
  mutex_lock;;
  r ← try_finally
        (try_except
           (names ← read_known_names;
            if bool_decide (name ∈ names) then
              names' ← read_known_names;
              index ← or_raise (list_index name names');
              pop_known_names index;;
              pop_known_encodings index;;
              save_database;;
              ret (Some true)
            else ret None)
           (ret None))
        mutex_unlock;
  ret (default false r).

(** ** Vocabulary of the statements *)

(** The world an outcome ends in, and what was returned, if anything. *)
Definition final {A} (o : outcome A) : World :=
  match o with Returned _ w | Raised w | Blocked w => w end.

Definition returned {A} (o : outcome A) : option A :=
  match o with Returned a _ => Some a | _ => None end.

(** The (name, signature) records held by two parallel lists. *)
Definition records (names : list string) (encodings : list Sig)
  : list (string * Sig) :=
  zip names encodings.

(** The two lists are parallel. *)
Definition parallel (m : Manager) : Prop :=
  length (known_names m) = length (known_encodings m).

(** Every access to the shared lists in a trace happens between a lock and
    the matching unlock. *)
Fixpoint guarded_from (held : bool) (t : list event) : bool :=
  match t with
  | [] => true
  | EvLock :: r => guarded_from true r
  | EvUnlock :: r => guarded_from false r
  | (EvRead | EvWrite) :: r => held && guarded_from held r
  end.

Definition guarded (t : list event) : bool := guarded_from false t.

(** The dict [save_database] pickles in a world. *)
Definition snapshot (w : World) : pickled :=
  Pickled (Some (known_encodings (self w))) (Some (known_names (self w)))
          (Some (clock (disk w))).

(** The write of the database goes wrong in this world. *)
Definition persist_fails (w : World) : Prop :=
  match disk_fault (disk w) with
  | NoFault => False
  | RenameFails => is_Some (db_file (disk w))
  | OpenFails | DumpFails => True
  end.

(** What [load_database] takes from a file at [database_path]: a missing
    key reads as the empty list, a missing or corrupt file as no data. *)
Definition stored_names (f : option file) : list string :=
  match f with
  | Some (Pickle d) => default [] (p_names d)
  | _ => []
  end.

Definition stored_encodings (f : option file) : list Sig :=
  match f with
  | Some (Pickle d) => default [] (p_encodings d)
  | _ => []
  end.

(** The candidate a frame contributes to a registration, if any: the
    encoding of its face when it shows exactly one. *)
Definition candidate_of (fr : option Frame) : option Sig :=
  match fr with
  | None => None
  | Some frame =>
      let rgb_frame := cv2_bgr2rgb frame in
      let locs := fr_face_locations rgb_frame in
      if (length locs =? 1)%nat
      then head (fr_face_encodings rgb_frame locs) else None
  end.

(** What the camera delivers makes the processing of the frame raise. *)
Definition attempt_raises (fr : option Frame) : bool :=
  match fr with
  | Some frame => fr_raises frame
  | None => false
  end.

(** One of the [max_attempts] reads of a registration delivers a frame
    whose processing raises. *)
Definition attempts_raise (max_attempts : nat) (fd : list (option Frame))
  : bool :=
  existsb attempt_raises (take max_attempts fd).

(** The candidates gathered by [max_attempts] reads of the camera, when no
    frame raises. *)
Definition candidates (max_attempts : nat) (fd : list (option Frame))
  : list Sig :=
  omap candidate_of (take max_attempts fd).

(** Distance of a candidate to the nearest stored signature; 0 for an
    empty store, as in the source. *)
Definition min_distance_to (known : list Sig) (e : Sig) : Q :=
  default 0%Q (np_min (face_distance known e)).

(** The update of the local variables [(best_encoding, best_confidence)]
    of [register_new_user] by one candidate. *)
Definition keep_nearest (known : list Sig) (best : option Sig * option Q)
    (e : Sig) : option Sig * option Q :=
  if below (min_distance_to known e) (snd best)
  then (Some e, Some (min_distance_to known e)) else best.

(** [i] is the first position at which the distances from the stored
    signatures to [q] reach their minimum, [d]. *)
Definition nearest (known : list Sig) (q : Sig) (i : nat) (d : Q) : Prop :=
  face_distance known q !! i = Some d
  ∧ (∀ y, y ∈ face_distance known q → (d <= y)%Q)
  ∧ (∀ j y, (j < i)%nat → face_distance known q !! j = Some y → (d < y)%Q).

(** The name [match_face] appends to [self.face_names] for one encoding,
    as a function of the store. *)
Definition nearest_name (known : list Sig) (names : list string) (q : Sig)
  : option string :=
  match np_argmin (face_distance known q) with
  | Some i =>
      match face_distance known q !! i with
      | Some d => if Qltb d recognition_threshold then names !! i else None
      | None => None
      end
  | None => None
  end.

(** ** The remaining methods of [FaceRecognitionManager] *)

(** [get_user_count()]. *)
Definition get_user_count : M nat :=
  names ← read_known_names; ret (length names).

(** [get_all_users()]: a copy of the list of names. *)
Definition get_all_users : M (list string) := read_known_names.

(** ** main.py: [VideoThread] *)

(** What the thread emits: [frame_ready] and [user_detected]. *)
Inductive signal :=
| FrameReady (frame : Frame)
| UserDetected (user_name : string).

(** One turn of the loop of [VideoThread.run]: read a frame and, if there
    is one, identify the face in it and emit both signals. *)
Definition run_cycle : M (list signal) :=
  fr ← cap_read;
  match fr with
  | Some frame =>
      user_name ← identify_face (Some frame);
      ret [FrameReady frame;
           UserDetected (match user_name with
                         | Some n => if truthy n then n else ""
                         | None => ""
                         end)]
  | None => ret []
  end.

(** The body of the [while] loop, adding what it emits to what was
    emitted before. *)
Definition run_step (turn : nat) (emitted : list signal)
  : M (list signal) :=
  sigs ← run_cycle; ret (emitted ++ sigs).

(** [VideoThread.run()], for a loop that finds [self.running] true
    [cycles] times before [stop()] is seen; the result is what was
    emitted, in order. *)
Definition run (cycles : nat) : M (list signal) :=
  video_capture;;
  emitted ← for_fold (seq 0 cycles) [] run_step;
  cap_release;;
  ret emitted.

(** [VideoThread.register_user(name)]. *)
Definition register_user (name : string) : M bool :=
  register_new_user name 10.

(** What [identify_face] answers for a frame, as a function of the store:
    the name matched to the first face found, unless it is empty. *)
Definition identified (known : list Sig) (names : list string)
    (frame : Frame) : option string :=
  if (frame_size frame =? 0)%nat then None
  else
    let rgb := cv2_bgr2rgb (cv2_resize_half frame) in
    match fr_face_locations rgb with
    | [] => None
    | locs =>
        match fr_face_encodings rgb locs with
        | q :: _ =>
            match nearest_name known names q with
            | Some n => if truthy n then Some n else None
            | None => None
            end
        | [] => None
        end
    end.

(** The store, the mutex, the disk and the camera are the same in two
    worlds. *)
Definition untouched (w w' : World) : Prop :=
  known_encodings (self w') = known_encodings (self w)
  ∧ known_names (self w') = known_names (self w)
  ∧ mutex_held (self w') = mutex_held (self w)
  ∧ disk w' = disk w
  ∧ camera w' = camera w.

(** What one turn of [VideoThread.run] emits for what the camera
    delivers, as a function of the store. *)
Definition emitted_for (known : list Sig) (names : list string)
    (fr : option Frame) : list signal :=
  match fr with
  | Some frame =>
      [FrameReady frame;
       UserDetected (default "" (identified known names frame))]
  | None => []
  end.

End Manager.

(** ** A concrete environment for examples

    Signatures are rationals at distance [|a - b|]; a frame is the list of
    the signatures of the faces it shows, and a location is that face's
    signature.  The empty frame is the empty image, on which the colour
    conversion of a registration raises. *)
Definition LineVision : Vision := {|
  Sig := Q;
  Frame := list Q;
  Location := Q;
  frame_size := length;
  cv2_resize_half := id;
  cv2_bgr2rgb := id;
  fr_face_locations := id;
  fr_face_encodings := λ _ locs, locs;
  fr_distance := λ a b, Qabs (a - b);
  fr_raises := λ f, (length f =? 0)%nat
|}.

(** A world with the given store, an idle mutex, the given disk and camera
    feed and an empty trace. *)
Definition world_of `{Vision} (encodings : list Sig) (names : list string)
    (f : option file) (fault : io_fault) (fd : list (option Frame)) : World :=
  mkWorld (mkManager encodings names [] [] [] false)
          (mkDisk f None fault "2024-01-01T00:00:00")
          (mkCamera fd false)
          [].

End FaceRecognition.


(* ===================================================================== *)
(** * main.py: [FaceChatMainWindow]                                       *)
(* ===================================================================== *)

Module Main.
Import PyStr.

(** One message of the chat display: [ChatWidget.add_message] renders its
    HTML from the sender, the text and the [is_user] flag. *)
Record chat_line := Line {
  sender : string;
  text : string;
  is_user : bool
}.

(** A message box shown to the user. *)
Inductive dialog :=
| Information (title body : string)
| Warning (title body : string).

(** The attributes of the window that its slots read and write. *)
Record Window := mkWindow {
  current_user : option string;
  chatbot : Chatbot.ChatbotManager;
  user_greeted : gset string;
  user_info_label : string;
  chat_display : list chat_line;
  input_line : string;
  dialogs : list dialog
}.

(** [self.chat_widget.add_message(sender, message, is_user)]. *)
Definition add_message (sender message : string) (is_user : bool)
    (win : Window) : Window :=
  mkWindow (current_user win) (chatbot win) (user_greeted win)
           (user_info_label win)
           (chat_display win ++ [Line sender message is_user])
           (input_line win) (dialogs win).

(** The window after [__init__] and [setup_ui]. *)
Definition new_window : Window :=
  mkWindow None (Chatbot.Manager [] ∅) ∅ "No user detected"
    [Line "System"
       "Face Chat App initialized. Please look at the camera for identification."
       false]
    "" [].

Definition welcome_line (u : string) : chat_line :=
  Line "System" ("Welcome back, " +:+ u +:+ "! How can I help you today?")
       false.

(** [update_current_user(user_name)], the slot of [user_detected]. *)
Definition update_current_user (user_name : string) (win : Window)
  : Window :=
  if bool_decide (Some user_name ≠ current_user win) then
    if truthy user_name then
      let greet := bool_decide (user_name ∉ user_greeted win) in
      mkWindow (Some user_name) (chatbot win)
               (if greet then {[user_name]} ∪ user_greeted win
                else user_greeted win)
               ("Hello, " +:+ user_name +:+ "!")
               (if greet then chat_display win ++ [welcome_line user_name]
                else chat_display win)
               (input_line win) (dialogs win)
    else
      mkWindow None (chatbot win) (user_greeted win) "No user detected"
               (chat_display win) (input_line win) (dialogs win)
  else win.

(** [self.current_user or "User"]. *)
Definition display_name (current : option string) : string :=
  match current with
  | Some u => if truthy u then u else "User"
  | None => "User"
  end.

(** [send_message()]; [e] is what the clock and the random source give to
    the chatbot, [exc_text] the text of an exception it might raise. *)
Definition send_message (e : Chatbot.Env) (exc_text : string)
    (win : Window) : Window :=
  let message := strip (input_line win) in
  if negb (truthy message) then win
  else
    let shown := chat_display win
                 ++ [Line (display_name (current_user win)) message true] in
    let '(response, bot) :=
      Chatbot.get_response e message (current_user win) (chatbot win) in
    mkWindow (current_user win) bot (user_greeted win) (user_info_label win)
             (shown ++ [match response with
                        | Some r => Line "Assistant" r false
                        | None => Line "System" ("Error: " +:+ exc_text) false
                        end])
             "" (dialogs win).

(** [clear_chat()]. *)
Definition clear_chat (win : Window) : Window :=
  mkWindow (current_user win) (chatbot win) ∅ (user_info_label win)
           [Line "System" "Chat cleared." false]
           (input_line win) (dialogs win).

(** [register_new_user()]: [name] and [ok] are what the input dialog
    returned. *)
Definition register_new_user `{FaceRecognition.Vision} (name : string)
    (ok : bool) (win : Window) : FaceRecognition.M Window :=
  if ok && truthy (strip name) then
    success ← FaceRecognition.register_user (strip name);
    if success : bool then
      let win1 := add_message "System"
                    ("Successfully registered " +:+ name +:+ "!") false win in
      mret (mkWindow (current_user win1) (chatbot win1) (user_greeted win1)
              (user_info_label win1) (chat_display win1) (input_line win1)
              (dialogs win1
               ++ [Information "Success"
                     ("User " +:+ name +:+ " registered successfully!")]))
    else
      mret (mkWindow (current_user win) (chatbot win) (user_greeted win)
              (user_info_label win) (chat_display win) (input_line win)
              (dialogs win
               ++ [Warning "Error"
                     "Failed to register user. Make sure your face is visible in the camera."]))
  else mret win.

End Main.

(* ===================================================================== *)
(** * Properties of the chatbot                                           *)
(* ===================================================================== *)

Module ChatbotSpec.
Import PyStr Chatbot.

(** ** Strings *)

Lemma lower_char_space c : isspace c = true → lower_char c = c.
Proof.
  destruct c as [b0 b1 b2 b3 b4 b5 b6 b7].
  destruct b0, b1, b2, b3, b4, b5, b6, b7; vm_compute; congruence.
Qed.

Lemma lower_whitespace s : whitespace_only s = true → lower s = s.
Proof.
  induction s as [|c r IH]; simpl; [done|].
  intros [Hc Hr]%andb_prop. by rewrite lower_char_space, IH.
Qed.

Lemma lstrip_whitespace s : whitespace_only s = true → lstrip s = "".
Proof.
  induction s as [|c r IH]; simpl; [done|].
  intros [Hc Hr]%andb_prop. rewrite Hc. by apply IH.
Qed.

Lemma strip_lower_whitespace s :
  whitespace_only s = true → strip (lower s) = "".
Proof.
  intros Hs. rewrite (lower_whitespace s Hs). unfold strip.
  by rewrite (lstrip_whitespace s Hs).
Qed.

(** ** [max] returns the first maximal element *)

Lemma max_from_first {A} (key : A → Z) (l pre : list A) (i : nat) (best : A) :
  pre !! i = Some best →
  (∀ y, y ∈ pre → key y ≤ key best) →
  (∀ j y, (j < i)%nat → pre !! j = Some y → key y < key best) →
  ∃ i', (pre ++ l) !! i' = Some (max_from key best l)
        ∧ (∀ y, y ∈ pre ++ l → key y ≤ key (max_from key best l))
        ∧ (∀ j y, (j < i')%nat → (pre ++ l) !! j = Some y →
                  key y < key (max_from key best l)).
Proof.
  revert pre i best.
  induction l as [|x r IH]; intros pre i best Hi Hle Hlt; simpl.
  - exists i. rewrite app_nil_r. done.
  - destruct (Z.ltb_spec (key best) (key x)) as [Hbx|Hxb].
    + destruct (IH (pre ++ [x]) (length pre) x) as (i' & H1 & H2 & H3).
      * by rewrite lookup_app_r, Nat.sub_diag.
      * intros y [Hy| ->%list_elem_of_singleton]%elem_of_app; [|lia].
        specialize (Hle y Hy). lia.
      * intros j y Hj Hy. rewrite lookup_app_l in Hy by done.
        apply list_elem_of_lookup_2, Hle in Hy. lia.
      * exists i'. by rewrite <- app_assoc in H1, H2, H3.
    + destruct (IH (pre ++ [x]) i best) as (i' & H1 & H2 & H3).
      * rewrite lookup_app_l; [done|]. by eapply lookup_lt_Some.
      * intros y [Hy| ->%list_elem_of_singleton]%elem_of_app; [auto|lia].
      * intros j y Hj Hy. apply (Hlt j y Hj).
        rewrite lookup_app_l in Hy; [done|].
        apply lookup_lt_Some in Hi. lia.
      * exists i'. by rewrite <- app_assoc in H1, H2, H3.
Qed.

Lemma py_max_first {A} (key : A → Z) (l : list A) (c : A) :
  py_max key l = Some c →
  ∃ i, l !! i = Some c
       ∧ (∀ y, y ∈ l → key y ≤ key c)
       ∧ (∀ j y, (j < i)%nat → l !! j = Some y → key y < key c).
Proof.
  destruct l as [|x r]; simpl; [done|]. intros [= <-].
  destruct (max_from_first key r [x] 0 x) as (i & H1 & H2 & H3).
  - done.
  - intros y ->%list_elem_of_singleton. lia.
  - intros j y Hj. lia.
  - exists i. done.
Qed.

(** ** The score table *)

Lemma dict_get_app_fresh {V} (d : list (string * V)) k v k' :
  dict_get (d ++ [(k, v)]) k' =
  match dict_get d k' with
  | Some x => Some x
  | None => if String.eqb k k' then Some v else None
  end.
Proof.
  induction d as [|[k0 v0] d IH]; simpl; [done|].
  destruct (String.eqb k0 k'); [done|]. apply IH.
Qed.

Lemma dict_set_fresh {V} (d : list (string * V)) k v :
  k ∉ d.*1 → dict_set d k v = d ++ [(k, v)].
Proof.
  induction d as [|[k0 v0] d IH]; simpl; [done|].
  intros Hk. apply not_elem_of_cons in Hk as [Hne Hk].
  destruct (String.eqb_spec k0 k) as [->|_]; [done|]. by rewrite IH.
Qed.

Lemma category_scores_fold (t : list (string * list string)) message d :
  NoDup (d.*1 ++ t.*1) →
  fold_left (λ d '(category, kws), dict_set d category (score kws message))
            t d
  = d ++ map (λ '(category, kws), (category, score kws message)) t.
Proof.
  revert d. induction t as [|[c kws] t IH]; intros d Hnd; simpl.
  - by rewrite app_nil_r.
  - simpl in Hnd. rewrite dict_set_fresh.
    + rewrite IH.
      * by rewrite <- app_assoc.
      * rewrite fmap_app. simpl. by rewrite <- app_assoc.
    + apply NoDup_app in Hnd as (_ & Hd & _). intros Hc.
      apply (Hd c Hc). by left.
Qed.

Lemma category_scores_map t message :
  NoDup t.*1 →
  category_scores_of t message
  = map (λ '(category, kws), (category, score kws message)) t.
Proof. intros Hnd. unfold category_scores_of. by rewrite category_scores_fold. Qed.

Lemma keywords_nodup : NoDup keywords.*1.
Proof. apply (bool_decide_unpack _). by vm_compute. Qed.

Lemma dict_get_map_score t message c :
  dict_get (map (λ '(category, kws), (category, score kws message)) t) c
  = (λ kws, score kws message) <$> dict_get t c.
Proof.
  induction t as [|[c0 kws] t IH]; simpl; [done|].
  by destruct (String.eqb c0 c).
Qed.

Lemma score_key_keywords message c :
  c ∈ categories →
  score_key (category_scores_of keywords message) c = category_score message c.
Proof.
  intros Hc. unfold score_key, category_score.
  rewrite category_scores_map by apply keywords_nodup.
  rewrite dict_get_map_score.
  destruct (dict_get keywords c) eqn:E; [done|].
  exfalso. revert Hc E. unfold categories, dict_keys.
  generalize keywords. intros t. induction t as [|[c0 kws] t IH]; simpl.
  - by intros ?%elem_of_nil.
  - intros [->|Hc]%elem_of_cons.
    + by rewrite String.eqb_refl.
    + destruct (String.eqb c0 c); [done|]. by apply IH.
Qed.

Lemma keys_category_scores message :
  dict_keys (category_scores_of keywords message) = categories.
Proof.
  rewrite category_scores_map by apply keywords_nodup.
  unfold dict_keys, categories, dict_keys. generalize keywords.
  intros t. induction t as [|[c kws] t IH]; simpl; [done|]. by f_equal.
Qed.

(** ** Scores of a message without keywords *)

Lemma score_fold_shift kws message (a : Z) :
  fold_left (λ sc kw, if contains kw message then sc + 1 else sc) kws a
  = a + score kws message.
Proof.
  unfold score. revert a. induction kws as [|kw kws IH]; intros a; simpl.
  - lia.
  - rewrite (IH (if contains kw message then a + 1 else a)).
    rewrite (IH (if contains kw message then 0 + 1 else 0)).
    destruct (contains kw message); lia.
Qed.

Lemma score_cons kw kws message :
  score (kw :: kws) message
  = (if contains kw message then 1 else 0) + score kws message.
Proof.
  unfold score at 1. simpl. rewrite score_fold_shift.
  by destruct (contains kw message).
Qed.

Lemma score_nil message : score [] message = 0.
Proof. done. Qed.

(** What [no_keyword_but] says of one keyword of the table. *)
Lemma no_keyword_but_elim allowed message c kws kw :
  no_keyword_but allowed message = true →
  (c, kws) ∈ keywords → kw ∈ kws →
  Some kw = allowed ∨ contains kw message = false.
Proof.
  unfold no_keyword_but. rewrite forallb_forall. intros Hall Hc Hkw.
  apply list_elem_of_In, Hall in Hc. simpl in Hc.
  rewrite forallb_forall in Hc. apply list_elem_of_In, Hc in Hkw.
  apply orb_prop in Hkw as [Hk|Hk].
  - left. by apply bool_decide_eq_true in Hk.
  - right. by apply negb_true_iff.
Qed.

(** Membership in a list written out. *)
Ltac in_list :=
  repeat first [apply list_elem_of_here | apply list_elem_of_further].

(** A text with a question mark always holds a keyword of the table: the
    question mark itself, listed under [questions]. *)
Lemma question_mark_is_keyword message :
  contains "?" message = true → no_keyword message = false.
Proof.
  intros Hq. destruct (no_keyword message) eqn:E; [|done].
  destruct (no_keyword_but_elim None message "questions"
              ["what"; "how"; "why"; "when"; "where"; "who"; "?"] "?" E)
    as [?|Hc].
  - unfold keywords. in_list.
  - in_list.
  - done.
  - congruence.
Qed.

(** C5. When several categories share the highest keyword score and that
    score is not zero, [_categorize_message] answers with the one that the
    keyword table enumerates first: the answer is the category at some
    position [i] of the enumeration, no category scores more, and every
    category before position [i] scores strictly less.  With the table of
    the source, "hello" is a greeting, "thanks so much" ties [compliments]
    with [appreciation] at score 1 and is a compliment, and "banana" falls
    to the default category. *)
Theorem C5_categorize_first_of_ties :
  (∀ message c,
     c ∈ categories → 0 < category_score message c →
     ∃ i best,
       categories !! i = Some best
       ∧ _categorize_message message = best
       ∧ (∀ c', c' ∈ categories →
                category_score message c' ≤ category_score message best)
       ∧ (∀ j c', (j < i)%nat → categories !! j = Some c' →
                  category_score message c' < category_score message best))
  ∧ _categorize_message "hello" = "greetings"
  ∧ (category_score "thanks so much" "compliments" = 1
     ∧ category_score "thanks so much" "appreciation" = 1
     ∧ _categorize_message "thanks so much" = "compliments")
  ∧ _categorize_message "banana" = "default".
Proof.
  split; [|by vm_compute].
  intros message c Hc Hpos.
  unfold _categorize_message, categorize_with.
  rewrite keys_category_scores.
  destruct (py_max (score_key (category_scores_of keywords message))
                   categories) as [best|] eqn:Hmax.
  - apply py_max_first in Hmax as (i & Hi & Hle & Hlt).
    assert (Hbest : best ∈ categories) by by eapply list_elem_of_lookup_2.
    assert (Hposbest : 0 < category_score message best).
    { specialize (Hle c Hc). rewrite !score_key_keywords in Hle by done. lia. }
    exists i, best. split; [done|]. split.
    + rewrite score_key_keywords by done.
      by destruct (Z.ltb_spec 0 (category_score message best)); [|lia].
    + split.
      * intros c' Hc'. specialize (Hle c' Hc').
        by rewrite !score_key_keywords in Hle.
      * intros j c' Hj Hc'. specialize (Hlt j c' Hj Hc').
        rewrite !score_key_keywords in Hlt; [done..|].
        by eapply list_elem_of_lookup_2.
  - by destruct categories eqn:E.
Qed.

(** The tie of "thanks so much" is decided by the order of the table. *)
Lemma C5_categorize_first_of_ties_witness :
  "compliments" ∈ categories
  ∧ 0 < category_score "thanks so much" "compliments"
  ∧ ∃ i best,
      categories !! i = Some best
      ∧ _categorize_message "thanks so much" = best
      ∧ (∀ c', c' ∈ categories →
               category_score "thanks so much" c'
               ≤ category_score "thanks so much" best)
      ∧ (∀ j c', (j < i)%nat → categories !! j = Some c' →
                 category_score "thanks so much" c'
                 < category_score "thanks so much" best).
Proof.
  assert (H1 : "compliments" ∈ categories)
    by (apply (bool_decide_unpack _); vm_compute; exact I).
  assert (H2 : 0 < category_score "thanks so much" "compliments")
    by (vm_compute; reflexivity).
  split; [exact H1|]. split; [exact H2|].
  exact (proj1 C5_categorize_first_of_ties "thanks so much" "compliments" H1 H2).
Defined.

(** ** A question mark and no other keyword *)

Lemma score_absent kws message :
  Forall (λ kw, contains kw message = false) kws → score kws message = 0.
Proof.
  induction 1 as [|kw kws Hkw _ IH]; [done|].
  by rewrite score_cons, Hkw, IH.
Qed.

Lemma score_others allowed message c kws :
  no_keyword_but allowed message = true →
  (c, kws) ∈ keywords →
  Forall (λ kw, Some kw ≠ allowed) kws →
  score kws message = 0.
Proof.
  intros Hno Hc Hkws. apply score_absent, Forall_forall.
  intros kw Hkw.
  destruct (no_keyword_but_elim allowed message c kws kw Hno Hc Hkw)
    as [Heq|Habs]; [|done].
  rewrite Forall_forall in Hkws. by destruct (Hkws kw Hkw).
Qed.

Lemma score_questions message :
  contains "?" message = true →
  no_keyword_but (Some "?") message = true →
  score ["what"; "how"; "why"; "when"; "where"; "who"; "?"] message = 1.
Proof.
  intros Hq Hno.
  assert (Hin : ("questions",
                 ["what"; "how"; "why"; "when"; "where"; "who"; "?"])
                ∈ keywords) by (unfold keywords; in_list).
  assert (Habs : ∀ kw, kw ∈ ["what"; "how"; "why"; "when"; "where"; "who"] →
                       contains kw message = false).
  { intros kw Hkw.
    destruct (no_keyword_but_elim _ _ _ _ kw Hno Hin) as [[= ->]|Hc];
      [revert Hkw; rewrite !elem_of_cons; tauto| |done].
    exfalso. revert Hkw. apply (bool_decide_unpack _). by vm_compute. }
  rewrite !score_cons, score_nil, Hq.
  rewrite !Habs by in_list. done.
Qed.

Lemma scores_question_only message :
  contains "?" message = true →
  no_keyword_but (Some "?") message = true →
  category_scores_of keywords message
  = map (λ '(c, _), (c, if String.eqb c "questions" then 1 else 0)) keywords.
Proof.
  intros Hq Hno. rewrite category_scores_map by apply keywords_nodup.
  apply map_ext_in. intros [c kws] Hin%list_elem_of_In.
  f_equal.
  pose proof (score_others (Some "?") message c kws Hno Hin) as Hothers.
  unfold keywords in Hin.
  repeat (apply elem_of_cons in Hin as [[= -> ->]|Hin]);
    try (by apply elem_of_nil in Hin);
    try (by apply score_questions);
    (simpl String.eqb; apply Hothers;
     apply (bool_decide_unpack _); by vm_compute).
Qed.

(** C6. For every text that holds a question mark and no keyword of the
    table other than the question mark itself, [_categorize_message]
    answers [questions].  The texts with a question mark and no keyword at
    all are among them (there are none: see [question_mark_is_keyword]). *)
Theorem C6_question_mark_only (message : string) :
  contains "?" message = true →
  no_keyword_but (Some "?") message = true →
  _categorize_message message = "questions".
Proof.
  intros Hq Hno. unfold _categorize_message, categorize_with.
  rewrite (scores_question_only message Hq Hno). by vm_compute.
Qed.

Lemma C6_question_mark_only_witness :
  contains "?" "is it so?" = true
  ∧ no_keyword_but (Some "?") "is it so?" = true
  ∧ _categorize_message "is it so?" = "questions".
Proof.
  assert (H1 : contains "?" "is it so?" = true) by (vm_compute; reflexivity).
  assert (H2 : no_keyword_but (Some "?") "is it so?" = true)
    by (vm_compute; reflexivity).
  exact (conj H1 (conj H2 (C6_question_mark_only "is it so?" H1 H2))).
Defined.

(** ** The turn counters *)

Lemma bump_context_named n ctx :
  truthy n = true →
  bump_context (Some n) ctx !! n
  = Some (Context
            (message_count (default (Context 0 []) (ctx !! n)) + 1)
            (topics (default (Context 0 []) (ctx !! n)))).
Proof.
  intros Hn. unfold bump_context. rewrite Hn.
  destruct (ctx !! n) as [c|] eqn:E; simplify_map_eq; done.
Qed.

Lemma bump_context_other user_name n ctx :
  user_name ≠ Some n → bump_context user_name ctx !! n = ctx !! n.
Proof.
  intros Hne. unfold bump_context.
  destruct user_name as [u|]; [|done].
  destruct (truthy u); [|done].
  assert (u ≠ n) by congruence.
  destruct (ctx !! u) as [c|] eqn:E; simplify_map_eq; done.
Qed.

Lemma bump_context_anonymous user_name ctx :
  truthy_opt user_name = false → bump_context user_name ctx = ctx.
Proof.
  unfold bump_context. destruct user_name as [u|]; simpl; [|done].
  by intros ->.
Qed.

(** The early return of [get_response]. *)
Lemma get_response_blank categorize e message user_name s :
  whitespace_only message = true →
  get_response_with categorize e message user_name s
  = (Some empty_prompt,
     Manager (conversation_history s
              ++ [Turn (speaker user_name) message (now e)])
             (bump_context user_name (session_context s))).
Proof.
  intros Hws. unfold get_response_with.
  by rewrite (strip_lower_whitespace message Hws).
Qed.

(** C2 (as the code has it). For every empty or whitespace-only text,
    [get_response] returns the fixed prompt whatever the categorizer would
    have said (it is not consulted), and records the turn in the history.
    The turn counter is updated before the text is looked at: when a
    non-empty user name is given, that name's [message_count] goes up by
    one; the counters of all other names are untouched, and with no name or
    an empty name no counter changes. *)
Theorem C2_empty_input_prompt (categorize : string → string) (e : Env)
    (message : string) (user_name : option string) (s : ChatbotManager) :
  whitespace_only message = true →
  get_response e message user_name s
  = get_response_with categorize e message user_name s
  ∧ (get_response e message user_name s).1 = Some empty_prompt
  ∧ conversation_history (get_response e message user_name s).2
    = conversation_history s ++ [Turn (speaker user_name) message (now e)]
  ∧ (∀ n, user_name = Some n → truthy n = true →
          turns_of n (get_response e message user_name s).2
          = turns_of n s + 1)
  ∧ (∀ n, user_name ≠ Some n →
          session_context (get_response e message user_name s).2 !! n
          = session_context s !! n)
  ∧ (truthy_opt user_name = false →
     session_context (get_response e message user_name s).2
     = session_context s).
Proof.
  intros Hws. unfold get_response.
  rewrite !(get_response_blank _ e message user_name s Hws).
  cbn [fst snd session_context conversation_history].
  split; [done|]. split; [done|]. split; [done|]. split; [|split].
  - intros n -> Hn. unfold turns_of, get_user_stats.
    cbn [session_context]. by rewrite (bump_context_named n _ Hn).
  - intros n Hne. by apply bump_context_other.
  - apply bump_context_anonymous.
Qed.

Lemma C2_empty_input_prompt_witness :
  whitespace_only "   " = true
  ∧ (get_response (Build_Env "12:00" 0) "   " (Some "alice")
                  (Manager [] ∅)).1 = Some empty_prompt.
Proof.
  assert (H : whitespace_only "   " = true) by reflexivity.
  split; [exact H|].
  exact (proj1 (proj2 (C2_empty_input_prompt (λ _, "default")
                         (Build_Env "12:00" 0) "   " (Some "alice")
                         (Manager [] ∅) H))).
Defined.

(** C2 as the specification words it fails: a blank message from a named
    user gets the fixed prompt and still advances that user's counter. *)
Lemma C2_counter_advances_on_blank_input :
  ¬ (∀ (e : Env) (message : string) (user_name : option string)
       (s : ChatbotManager) (n : string),
       whitespace_only message = true →
       (get_response e message user_name s).1 = Some empty_prompt
       ∧ turns_of n (get_response e message user_name s).2 = turns_of n s).
Proof.
  intros Hclaim.
  destruct (Hclaim (Build_Env "12:00" 0) "   " (Some "alice")
                   (Manager [] ∅) "alice" eq_refl) as [_ Hsame].
  vm_compute in Hsame. discriminate Hsame.
Qed.

End ChatbotSpec.


(* ===================================================================== *)
(** * Properties of the identity store                                    *)
(* ===================================================================== *)

Module FaceSpec.
Import PyStr FaceRecognition.

Section Store.
Context `{Vision}.

(** Unfolding of the monad and of the primitives. *)
Ltac step :=
  unfold mbind, M_bind, mret, M_ret, bind, ret, raise, try_except,
    try_finally, or_raise, mutex_lock, mutex_unlock, read_known_encodings,
    read_known_names, write_known_encodings, write_known_names,
    append_known_encoding, append_known_name, pop_known_names,
    pop_known_encodings, modify_self, get_self, os_path_exists, pickle_load,
    os_rename_to_backup, open_wb_dump, datetime_now, video_capture, cap_read,
    cap_release, with_self, with_disk, with_camera, with_event,
    put_known_encodings, put_known_names, put_face_locations,
    put_face_encodings, put_face_names, put_mutex_held, put_db_file,
    put_backup_file in *;
  cbn [self disk camera trace known_encodings known_names face_locations
       face_encodings face_names mutex_held db_file backup_file disk_fault
       clock feed is_open default from_option p_encodings p_names
       p_timestamp final returned] in *.

(** A run that returns in a world given by computation. *)
Ltac finish := eexists; split; [reflexivity|]; cbn; repeat split; done.

(** ** [save_database] *)

Lemma save_database_returns w :
  mutex_held (self w) = false →
  ∃ w', save_database w = Returned tt w'
        ∧ self w' = self w ∧ camera w' = camera w
        ∧ clock (disk w') = clock (disk w)
        ∧ disk_fault (disk w') = disk_fault (disk w)
        ∧ (disk_fault (disk w) = NoFault →
           db_file (disk w') = Some (Pickle (snapshot w)))
        ∧ (persist_fails w →
           db_file (disk w') = db_file (disk w)
           ∨ db_file (disk w') = None
           ∨ db_file (disk w') = Some Corrupt).
Proof.
  destruct w as [[ke kn fl fe fn mh] [db bk flt clk] cam tr].
  unfold save_database, snapshot, persist_fails. step. intros ->.
  destruct db as [f|], flt; cbn; step;
    (eexists; split; [reflexivity|]; cbn;
     repeat split; try done; try (intros []; done); auto).
Qed.

Lemma save_database_blocks w :
  mutex_held (self w) = true → save_database w = Blocked w.
Proof. unfold save_database. step. by intros ->. Qed.

(** ** [load_database] *)

Lemma load_database_returns w :
  mutex_held (self w) = false →
  ∃ w', load_database w = Returned tt w'
        ∧ known_names (self w') = stored_names (db_file (disk w))
        ∧ known_encodings (self w') = stored_encodings (db_file (disk w))
        ∧ mutex_held (self w') = false
        ∧ disk w' = disk w ∧ camera w' = camera w.
Proof.
  destruct w as [[ke kn fl fe fn mh] [db bk flt clk] cam tr].
  unfold load_database, stored_names, stored_encodings. step. intros ->.
  destruct db as [[|d]|]; cbn; step;
    (eexists; split; [reflexivity|]; cbn; done).
Qed.

Lemma load_database_blocks w :
  mutex_held (self w) = true → load_database w = Blocked w.
Proof. unfold load_database. step. by intros ->. Qed.

(** C8. Saving the store, when the write goes through, returns without
    raising and leaves a file from which any manager, whatever lists it
    holds, loads the very lists of names and of signatures that were saved,
    in the same order, hence the same records.  Loading when the file is
    missing or corrupt returns, without raising, with both lists empty. *)
Theorem C8_save_load_round_trip :
  (∀ w : World,
     mutex_held (self w) = false →
     disk_fault (disk w) = NoFault →
     ∃ w1,
       save_database w = Returned tt w1
       ∧ self w1 = self w
       ∧ ∀ w2 : World,
           disk w2 = disk w1 →
           mutex_held (self w2) = false →
           ∃ w3,
             load_database w2 = Returned tt w3
             ∧ known_names (self w3) = known_names (self w)
             ∧ known_encodings (self w3) = known_encodings (self w)
             ∧ records (known_names (self w3)) (known_encodings (self w3))
               = records (known_names (self w)) (known_encodings (self w)))
  ∧ (∀ w : World,
       mutex_held (self w) = false →
       db_file (disk w) = None ∨ db_file (disk w) = Some Corrupt →
       ∃ w',
         load_database w = Returned tt w'
         ∧ known_names (self w') = []
         ∧ known_encodings (self w') = []).
Proof.
  split.
  - intros w Hfree Hok.
    destruct (save_database_returns w Hfree)
      as (w1 & Hsave & Hself & _ & _ & _ & Hwritten & _).
    exists w1. split; [done|]. split; [done|].
    intros w2 Hdisk Hfree2.
    destruct (load_database_returns w2 Hfree2)
      as (w3 & Hload & Hn & He & _).
    rewrite Hdisk, (Hwritten Hok) in Hn, He. cbn in Hn, He.
    exists w3. by rewrite Hn, He.
  - intros w Hfree Hfile.
    destruct (load_database_returns w Hfree) as (w' & Hload & Hn & He & _).
    exists w'. split; [done|]. rewrite Hn, He.
    by destruct Hfile as [-> | ->].
Qed.

(** ** Distances *)

Lemma Qltb_lt x y : Qltb x y = true ↔ (x < y)%Q.
Proof.
  unfold Qltb. rewrite negb_true_iff. split.
  - intros Hb. apply Qnot_le_lt. intros Hle.
    apply Qle_bool_iff in Hle. congruence.
  - intros Hlt. destruct (Qle_bool y x) eqn:E; [|done].
    apply Qle_bool_iff in E. by apply Qlt_not_le in Hlt.
Qed.

Lemma Qltb_ge x y : Qltb x y = false ↔ (y <= x)%Q.
Proof.
  unfold Qltb. rewrite negb_false_iff. apply Qle_bool_iff.
Qed.

(** ** [np.argmin] *)

Lemma argmin_from_first (l pre : list Q) (besti : nat) (best : Q) :
  pre !! besti = Some best →
  (∀ y, y ∈ pre → (best <= y)%Q) →
  (∀ j y, (j < besti)%nat → pre !! j = Some y → (best < y)%Q) →
  ∃ d,
    (pre ++ l) !! argmin_from besti best (length pre) l = Some d
    ∧ (∀ y, y ∈ pre ++ l → (d <= y)%Q)
    ∧ (∀ j y, (j < argmin_from besti best (length pre) l)%nat →
              (pre ++ l) !! j = Some y → (d < y)%Q).
Proof.
  revert pre besti best.
  induction l as [|x r IH]; intros pre besti best Hi Hle Hlt; simpl.
  - exists best. by rewrite app_nil_r.
  - destruct (Qltb x best) eqn:Hx.
    + apply Qltb_lt in Hx.
      destruct (IH (pre ++ [x]) (length pre) x) as (d & H1 & H2 & H3).
      * by rewrite lookup_app_r, Nat.sub_diag.
      * intros y [Hy| ->%list_elem_of_singleton]%elem_of_app;
          [|apply Qle_refl].
        apply Qlt_le_weak. eapply Qlt_le_trans; [exact Hx|]. by apply Hle.
      * intros j y Hj Hy. rewrite lookup_app_l in Hy by done.
        eapply Qlt_le_trans; [exact Hx|].
        apply Hle. by eapply list_elem_of_lookup_2.
      * rewrite length_app, Nat.add_1_r in H1, H3.
        exists d. by rewrite <- app_assoc in H1, H2, H3.
    + apply Qltb_ge in Hx.
      destruct (IH (pre ++ [x]) besti best) as (d & H1 & H2 & H3).
      * rewrite lookup_app_l; [done|]. by eapply lookup_lt_Some.
      * intros y [Hy| ->%list_elem_of_singleton]%elem_of_app; auto.
      * intros j y Hj Hy. apply (Hlt j y Hj).
        rewrite lookup_app_l in Hy; [done|].
        apply lookup_lt_Some in Hi. lia.
      * rewrite length_app, Nat.add_1_r in H1, H3.
        exists d. by rewrite <- app_assoc in H1, H2, H3.
Qed.

Lemma np_argmin_first (l : list Q) :
  l ≠ [] →
  ∃ i d,
    np_argmin l = Some i
    ∧ l !! i = Some d
    ∧ (∀ y, y ∈ l → (d <= y)%Q)
    ∧ (∀ j y, (j < i)%nat → l !! j = Some y → (d < y)%Q).
Proof.
  destruct l as [|x r]; [done|]. intros _. simpl.
  destruct (argmin_from_first r [x] 0 x) as (d & H1 & H2 & H3).
  - done.
  - intros y ->%list_elem_of_singleton. apply Qle_refl.
  - intros j y Hj. lia.
  - exists (argmin_from 0 x 1 r), d. done.
Qed.

(** The first position of the minimum is unique. *)
Lemma nearest_unique known q i d i' d' :
  nearest known q i d → nearest known q i' d' → i = i' ∧ d = d'.
Proof.
  intros (H1 & H2 & H3) (H1' & H2' & H3').
  assert (i = i') as <-.
  { destruct (Nat.lt_trichotomy i i') as [Hlt|[Heq|Hgt]]; [|done|].
    - pose proof (H3' i d Hlt H1) as Hc.
      apply Qlt_not_le in Hc. destruct Hc. apply H2.
      by eapply list_elem_of_lookup_2.
    - pose proof (H3 i' d' Hgt H1') as Hc.
      apply Qlt_not_le in Hc. destruct Hc. apply H2'.
      by eapply list_elem_of_lookup_2. }
  split; [done|]. congruence.
Qed.

(** ** [identify_face] *)

Lemma compare_faces_lookup known q tol i d :
  face_distance known q !! i = Some d →
  compare_faces known q tol !! i = Some (Qle_bool d tol).
Proof.
  intros Hd. unfold compare_faces.
  change (map ?f ?l) with (f <$> l). by rewrite list_lookup_fmap, Hd.
Qed.

Lemma threshold_implies_match d :
  Qltb d recognition_threshold = true →
  Qle_bool d recognition_threshold = true.
Proof.
  intros Hd%Qltb_lt. by apply Qle_bool_iff, Qlt_le_weak.
Qed.

(** One turn of the loop over the faces of a frame appends the name of
    the nearest stored signature when it is below the threshold. *)
Lemma match_face_spec q w :
  (length (known_encodings (self w)) ≤ length (known_names (self w)))%nat →
  ∃ w',
    match_face q w = Returned tt w'
    ∧ known_encodings (self w') = known_encodings (self w)
    ∧ known_names (self w') = known_names (self w)
    ∧ face_names (self w')
      = face_names (self w)
        ++ [nearest_name (known_encodings (self w)) (known_names (self w)) q].
Proof.
  destruct w as [[ke kn fl fe fn mh] d cam tr]. cbn. intros Hlen.
  unfold match_face, nearest_name. step.
  destruct (decide (face_distance ke q = [])) as [Hnil|Hne].
  { assert (ke = []) as -> by (by destruct ke). cbn. finish. }
  destruct (np_argmin_first _ Hne) as (i & d0 & Harg & Hd & _).
  assert (Hi : (i < length kn)%nat).
  { apply lookup_lt_Some in Hd. unfold face_distance in Hd.
    rewrite length_map in Hd. lia. }
  destruct (lookup_lt_is_Some_2 kn i Hi) as [n Hn].
  rewrite Harg, Hd.
  case_bool_decide as Hm;
    cbn -[np_argmin face_distance compare_faces Qltb Nat.ltb
          recognition_threshold].
  - assert ((0 <? length ke)%nat = true) as ->
      by (destruct ke; [done|reflexivity]).
    cbn -[np_argmin face_distance compare_faces Qltb Nat.ltb
          recognition_threshold].
    rewrite Harg. unfold ret.
    rewrite (compare_faces_lookup ke q _ i d0 Hd), Hd.
    destruct (Qltb d0 recognition_threshold) eqn:Hthr.
    + rewrite (threshold_implies_match d0 Hthr).
      cbn -[np_argmin face_distance]. rewrite Hn. finish.
    + rewrite andb_false_r. finish.
  - destruct (Qltb d0 recognition_threshold) eqn:Hthr; [|finish].
    destruct Hm. eapply list_elem_of_lookup_2.
    rewrite (compare_faces_lookup ke q _ i d0 Hd).
    by rewrite (threshold_implies_match d0 Hthr).
Qed.

Lemma match_faces_spec (encs : list Sig) w :
  (length (known_encodings (self w)) ≤ length (known_names (self w)))%nat →
  ∃ w',
    for_each encs match_face w = Returned tt w'
    ∧ known_encodings (self w') = known_encodings (self w)
    ∧ known_names (self w') = known_names (self w)
    ∧ face_names (self w')
      = face_names (self w)
        ++ map (nearest_name (known_encodings (self w))
                             (known_names (self w))) encs.
Proof.
  revert w. induction encs as [|q encs IH]; intros w Hlen.
  - exists w. by rewrite app_nil_r.
  - cbn [for_each]. unfold mbind, M_bind, bind.
    destruct (match_face_spec q w Hlen) as (w1 & -> & He & Hn & Hf).
    destruct (IH w1) as (w2 & -> & He2 & Hn2 & Hf2).
    { by rewrite He, Hn. }
    exists w2. rewrite He2, Hn2, Hf2, He, Hn, Hf.
    by rewrite <- app_assoc.
Qed.

(** What [identify_face] answers for a frame in which faces are found:
    the name matched to the first face, unless it is an empty string. *)
Lemma identify_face_spec frame q rest w :
  (length (known_encodings (self w)) ≤ length (known_names (self w)))%nat →
  frame_size frame ≠ 0%nat →
  fr_face_locations (cv2_bgr2rgb (cv2_resize_half frame)) ≠ [] →
  fr_face_encodings (cv2_bgr2rgb (cv2_resize_half frame))
    (fr_face_locations (cv2_bgr2rgb (cv2_resize_half frame))) = q :: rest →
  ∃ w',
    identify_face (Some frame) w
    = Returned
        (match nearest_name (known_encodings (self w))
                            (known_names (self w)) q with
         | Some n => if truthy n then Some n else None
         | None => None
         end) w'
    ∧ known_encodings (self w') = known_encodings (self w)
    ∧ known_names (self w') = known_names (self w).
Proof.
  intros Hlen Hsize Hlocs Hencs. unfold identify_face.
  destruct (Nat.eqb_spec (frame_size frame) 0) as [?|_]; [done|].
  destruct w as [[ke kn fl fe fn mh] d cam tr]. cbn in Hlen.
  step.
  destruct (fr_face_locations _) as [|l0 ls] eqn:Hl; [done|].
  rewrite Hencs. step.
  match goal with |- context [for_each _ match_face ?x] => set (w0 := x) end.
  destruct (match_faces_spec (q :: rest) w0) as (w1 & Hrun & He & Hn & Hf);
    [done|].
  rewrite Hrun. rewrite Hf. subst w0.
  cbn [self face_names known_encodings known_names app map] in *.
  destruct (nearest_name _ _ q) as [n|]; [destruct (truthy n)|];
    (eexists; split; [reflexivity|]; by rewrite He, Hn).
Qed.

Lemma nearest_name_iff known names q name :
  nearest_name known names q = Some name
  ↔ ∃ i d, nearest known q i d
           ∧ (d < recognition_threshold)%Q
           ∧ names !! i = Some name.
Proof.
  unfold nearest_name. split.
  - destruct (decide (face_distance known q = [])) as [Hnil|Hne].
    { by rewrite Hnil. }
    destruct (np_argmin_first _ Hne) as (i & d & -> & Hd & Hle & Hlt).
    rewrite Hd. destruct (Qltb d recognition_threshold) eqn:Hthr; [|done].
    intros Hn. exists i, d. split; [done|]. split; [|done].
    by apply Qltb_lt.
  - intros (i & d & Hnear & Hthr & Hn).
    assert (Hne : face_distance known q ≠ []).
    { destruct Hnear as [Hd _]. intros Hnil. by rewrite Hnil in Hd. }
    destruct (np_argmin_first _ Hne) as (i' & d' & -> & Hd' & Hle' & Hlt').
    destruct (nearest_unique known q i d i' d' Hnear) as [<- <-]; [done|].
    rewrite Hd'. apply Qltb_lt in Hthr. by rewrite Hthr.
Qed.

(** ** The capture loop of [register_new_user] *)

(** The loop keeps the first candidate that is nearest to the store. *)
Lemma keep_nearest_first known (l pre : list Sig) (i : nat) (e : Sig) :
  let d := min_distance_to known in
  pre !! i = Some e →
  (∀ y, y ∈ pre → (d e <= d y)%Q) →
  (∀ j y, (j < i)%nat → pre !! j = Some y → (d e < d y)%Q) →
  ∃ i' e',
    fold_left (keep_nearest known) l (Some e, Some (d e))
    = (Some e', Some (d e'))
    ∧ (pre ++ l) !! i' = Some e'
    ∧ (∀ y, y ∈ pre ++ l → (d e' <= d y)%Q)
    ∧ (∀ j y, (j < i')%nat → (pre ++ l) !! j = Some y → (d e' < d y)%Q).
Proof.
  intros d. revert pre i e.
  induction l as [|x r IH]; intros pre i e Hi Hle Hlt; simpl.
  - exists i, e. by rewrite app_nil_r.
  - unfold keep_nearest at 2. cbn [snd below]. fold d.
    destruct (Qltb (d x) (d e)) eqn:Hx.
    + apply Qltb_lt in Hx.
      destruct (IH (pre ++ [x]) (length pre) x) as (i' & e' & H1 & H2 & H3 & H4).
      * by rewrite lookup_app_r, Nat.sub_diag.
      * intros y [Hy| ->%list_elem_of_singleton]%elem_of_app;
          [|apply Qle_refl].
        apply Qlt_le_weak. eapply Qlt_le_trans; [exact Hx|]. by apply Hle.
      * intros j y Hj Hy. rewrite lookup_app_l in Hy by done.
        eapply Qlt_le_trans; [exact Hx|].
        apply Hle. by eapply list_elem_of_lookup_2.
      * exists i', e'. by rewrite <- app_assoc in H2, H3, H4.
    + apply Qltb_ge in Hx.
      destruct (IH (pre ++ [x]) i e) as (i' & e' & H1 & H2 & H3 & H4).
      * rewrite lookup_app_l; [done|]. by eapply lookup_lt_Some.
      * intros y [Hy| ->%list_elem_of_singleton]%elem_of_app; auto.
      * intros j y Hj Hy. apply (Hlt j y Hj).
        rewrite lookup_app_l in Hy; [done|].
        apply lookup_lt_Some in Hi. lia.
      * exists i', e'. by rewrite <- app_assoc in H2, H3, H4.
Qed.

Lemma keep_nearest_from_nothing known (cands : list Sig) :
  let d := min_distance_to known in
  cands ≠ [] →
  ∃ i e,
    fold_left (keep_nearest known) cands (None, None) = (Some e, Some (d e))
    ∧ cands !! i = Some e
    ∧ (∀ y, y ∈ cands → (d e <= d y)%Q)
    ∧ (∀ j y, (j < i)%nat → cands !! j = Some y → (d e < d y)%Q).
Proof.
  intros d. destruct cands as [|e0 r]; [done|]. intros _. simpl.
  unfold keep_nearest at 2. cbn [snd below]. fold d.
  apply (keep_nearest_first known r [e0] 0 e0).
  - done.
  - intros y ->%list_elem_of_singleton. apply Qle_refl.
  - intros j y Hj. lia.
Qed.

(** One turn of the loop, on a frame that makes no call raise, reads the
    frame and offers its candidate, if it has one, to [keep_nearest]; the
    store and the disk are not written. *)
Lemma register_attempt_spec attempt best w :
  attempts_raise 1 (feed (camera w)) = false →
  ∃ w',
    register_attempt attempt best w
    = Returned
        (match feed (camera w) with
         | fr :: _ =>
             match candidate_of fr with
             | Some e => keep_nearest (known_encodings (self w)) best e
             | None => best
             end
         | [] => best
         end) w'
    ∧ self w' = self w ∧ disk w' = disk w
    ∧ feed (camera w') = tail (feed (camera w))
    ∧ is_open (camera w') = is_open (camera w).
Proof.
  destruct w as [[ke kn fl fe fn mh] d [fd op] tr].
  unfold register_attempt, attempts_raise. step.
  destruct fd as [|[frame|] fd']; cbn; [intros _; finish| |intros _; finish].
  rewrite orb_false_r. intros ->.
  destruct (length (fr_face_locations (cv2_bgr2rgb frame)) =? 1)%nat;
    [|finish].
  destruct (fr_face_encodings _ _) as [|enc encs]; cbn; [finish|].
  unfold keep_nearest, min_distance_to.
  destruct ke as [|k ks]; cbn;
    match goal with |- context [below ?a ?b] => destruct (below a b) end;
    finish.
Qed.

(** One turn of the loop on a frame that makes a call raise: the frame has
    been read, and the exception leaves the turn before the store is looked
    at. *)
Lemma register_attempt_raises attempt best w frame fd :
  feed (camera w) = Some frame :: fd →
  fr_raises frame = true →
  ∃ w',
    register_attempt attempt best w = Raised w'
    ∧ self w' = self w ∧ disk w' = disk w
    ∧ feed (camera w') = fd
    ∧ is_open (camera w') = is_open (camera w).
Proof.
  destruct w as [[ke kn fl fe fn mh] d [fd0 op] tr].
  unfold register_attempt. step. intros -> Hr. cbn. rewrite Hr.
  eexists. split; [reflexivity|]. done.
Qed.

Lemma attempts_raise_cons n fr (fd : list (option Frame)) :
  attempts_raise (S n) (fr :: fd) = attempt_raises fr || attempts_raise n fd.
Proof. done. Qed.

Lemma attempts_raise_nil n : attempts_raise n [] = false.
Proof. unfold attempts_raise. by rewrite take_nil. Qed.

Lemma attempts_raise_head fr (fd : list (option Frame)) :
  attempts_raise 1 (fr :: fd) = attempt_raises fr.
Proof. unfold attempts_raise. cbn. apply orb_false_r. Qed.

(** The loop over frames none of which raises: every read is made, and the
    candidates are folded by [keep_nearest]. *)
Lemma register_loop_spec (l : list nat) best w :
  attempts_raise (length l) (feed (camera w)) = false →
  ∃ w',
    for_fold l best register_attempt w
    = Returned
        (fold_left (keep_nearest (known_encodings (self w)))
                   (candidates (length l) (feed (camera w))) best) w'
    ∧ self w' = self w ∧ disk w' = disk w
    ∧ feed (camera w') = drop (length l) (feed (camera w))
    ∧ is_open (camera w') = is_open (camera w).
Proof.
  revert best w. induction l as [|a l IH]; intros best w Hquiet.
  - exists w. by rewrite drop_0.
  - cbn [for_fold]. unfold mbind, M_bind, bind.
    assert (Hhead : attempts_raise 1 (feed (camera w)) = false
                    ∧ attempts_raise (length l) (tail (feed (camera w)))
                      = false).
    { destruct (feed (camera w)) as [|fr fd]; cbn [tail length] in *.
      - by rewrite !attempts_raise_nil.
      - rewrite attempts_raise_cons in Hquiet.
        apply orb_false_iff in Hquiet as [Hfr Hfd].
        by rewrite attempts_raise_head. }
    destruct Hhead as [Hfr Hfd].
    destruct (register_attempt_spec a best w Hfr)
      as (w1 & -> & Hself & Hdisk & Hfeed & Hopen).
    rewrite <- Hfeed in Hfd.
    destruct (IH (match feed (camera w) with
                  | fr :: _ =>
                      match candidate_of fr with
                      | Some e => keep_nearest (known_encodings (self w)) best e
                      | None => best
                      end
                  | [] => best
                  end) w1 Hfd) as (w2 & -> & Hself2 & Hdisk2 & Hfeed2 & Hopen2).
    exists w2. rewrite Hself2, Hdisk2, Hfeed2, Hopen2, Hself, Hdisk, Hopen, Hfeed.
    split; [|split; [done|split; [done|split; [|done]]]].
    + f_equal. unfold candidates.
      destruct (feed (camera w)) as [|fr fd]; cbn.
      * by rewrite take_nil.
      * by destruct (candidate_of fr).
    + cbn [length].
      destruct (feed (camera w)); cbn [tail]; [by rewrite !drop_nil|done].
Qed.

(** The loop over frames one of which raises: it is left at the first of
    them, with that frame read and no later one, and the store and the disk
    as they were. *)
Lemma register_loop_raises (l : list nat) best w :
  attempts_raise (length l) (feed (camera w)) = true →
  ∃ k frame w',
    (k < length l)%nat
    ∧ feed (camera w) !! k = Some (Some frame)
    ∧ fr_raises frame = true
    ∧ (∀ j fr, (j < k)%nat → feed (camera w) !! j = Some fr →
               attempt_raises fr = false)
    ∧ for_fold l best register_attempt w = Raised w'
    ∧ self w' = self w ∧ disk w' = disk w
    ∧ feed (camera w') = drop (S k) (feed (camera w))
    ∧ is_open (camera w') = is_open (camera w).
Proof.
  revert best w. induction l as [|a l IH]; intros best w Hloud.
  - by destruct (feed (camera w)).
  - cbn [for_fold length] in *. unfold mbind, M_bind, bind.
    destruct (feed (camera w)) as [|fr fd] eqn:Hfd.
    { by rewrite attempts_raise_nil in Hloud. }
    rewrite attempts_raise_cons in Hloud.
    destruct (attempt_raises fr) eqn:Hfr.
    + destruct fr as [frame|]; [|done]. cbn in Hfr.
      destruct (register_attempt_raises a best w frame fd Hfd Hfr)
        as (w1 & -> & Hself & Hdisk & Hfeed & Hopen).
      exists 0%nat, frame, w1. split; [lia|]. split; [done|]. split; [done|].
      split; [intros j fr' Hj; lia|]. done.
    + cbn [orb] in Hloud.
      assert (Hquiet : attempts_raise 1 (feed (camera w)) = false)
        by by rewrite Hfd, attempts_raise_head.
      destruct (register_attempt_spec a best w Hquiet)
        as (w1 & -> & Hself & Hdisk & Hfeed & Hopen).
      rewrite Hfd in Hfeed. cbn [tail] in Hfeed.
      rewrite <- Hfeed in Hloud.
      match goal with |- context [for_fold l ?b register_attempt w1] =>
        destruct (IH b w1 Hloud)
          as (k & frame & w2 & Hk & Hat & Hr & Hbefore & -> & Hself2 & Hdisk2
              & Hfeed2 & Hopen2)
      end.
      rewrite Hfeed in Hat, Hbefore, Hfeed2.
      exists (S k), frame, w2. split; [lia|]. split; [done|]. split; [done|].
      split.
      * intros [|j] fr' Hj Hlook; cbn in Hlook.
        -- by injection Hlook as <-.
        -- apply (Hbefore j fr'); [lia|done].
      * rewrite Hself2, Hdisk2, Hopen2, Hfeed2. done.
Qed.

(** ** [register_new_user] *)

(** The world in which the capture loop of a registration ends when no
    frame raises. *)
Lemma register_loop_run n w :
  attempts_raise n (feed (camera w)) = false →
  ∃ w1,
    for_fold (seq 0 n) (None, None) register_attempt
      (with_camera (λ c, mkCamera (feed c) true) w)
    = Returned
        (fold_left (keep_nearest (known_encodings (self w)))
                   (candidates n (feed (camera w))) (None, None)) w1
    ∧ self w1 = self w ∧ disk w1 = disk w
    ∧ feed (camera w1) = drop n (feed (camera w)).
Proof.
  intros Hquiet.
  destruct (register_loop_spec (seq 0 n) (None, None)
              (with_camera (λ c, mkCamera (feed c) true) w))
    as (w1 & Hloop & Hself & Hdisk & Hfeed & _).
  { by rewrite length_seq. }
  rewrite length_seq in Hloop, Hfeed. exists w1. done.
Qed.

(** A frame raises: the handler answers false; nothing is stored or
    written, whatever was gathered before, the frames after the raising one
    are not read, and the capture device is released. *)
Lemma register_new_user_raised name n w :
  attempts_raise n (feed (camera w)) = true →
  ∃ k frame w',
    (k < n)%nat
    ∧ feed (camera w) !! k = Some (Some frame)
    ∧ fr_raises frame = true
    ∧ (∀ j fr, (j < k)%nat → feed (camera w) !! j = Some fr →
               attempt_raises fr = false)
    ∧ register_new_user name n w = Returned false w'
    ∧ self w' = self w ∧ disk w' = disk w
    ∧ feed (camera w') = drop (S k) (feed (camera w))
    ∧ is_open (camera w') = false.
Proof.
  intros Hloud.
  unfold register_new_user, mbind, M_bind, bind, video_capture.
  destruct (register_loop_raises (seq 0 n) (None, None)
              (with_camera (λ c, mkCamera (feed c) true) w))
    as (k & frame & w1 & Hk & Hat & Hr & Hbefore & Hloop & Hself & Hdisk
        & Hfeed & _).
  { by rewrite length_seq. }
  rewrite length_seq in Hk.
  exists k, frame. unfold try_finally, try_except. rewrite Hloop. step.
  eexists. split; [done|]. split; [exact Hat|]. split; [done|].
  split; [exact Hbefore|]. split; [reflexivity|]. cbn. done.
Qed.

(** No frame raises and no candidate: nothing is stored or written, and
    the answer is false. *)
Lemma register_new_user_none name n w :
  attempts_raise n (feed (camera w)) = false →
  candidates n (feed (camera w)) = [] →
  ∃ w', register_new_user name n w = Returned false w'
        ∧ self w' = self w ∧ disk w' = disk w
        ∧ feed (camera w') = drop n (feed (camera w))
        ∧ is_open (camera w') = false.
Proof.
  intros Hquiet Hnone.
  unfold register_new_user, mbind, M_bind, bind, video_capture.
  destruct (register_loop_run n w Hquiet)
    as (w1 & Hloop & Hself & Hdisk & Hfeed).
  rewrite Hnone in Hloop. cbn [fold_left] in Hloop.
  unfold try_finally, try_except. rewrite Hloop. cbn [fst]. step.
  finish.
Qed.

(** A registration that gathers nothing or meets a raising frame answers
    false and leaves the store and the disk as they were. *)
Lemma register_new_user_fails name n w :
  candidates n (feed (camera w)) = []
  ∨ attempts_raise n (feed (camera w)) = true →
  ∃ w', register_new_user name n w = Returned false w'
        ∧ self w' = self w ∧ disk w' = disk w.
Proof.
  intros Hwhy.
  destruct (attempts_raise n (feed (camera w))) eqn:Hr.
  - destruct (register_new_user_raised name n w Hr)
      as (k & frame & w' & _ & _ & _ & _ & Hreg & Hself & Hdisk & _).
    by exists w'.
  - destruct Hwhy as [Hnone|?]; [|done].
    destruct (register_new_user_none name n w Hr Hnone)
      as (w' & Hreg & Hself & Hdisk & _).
    by exists w'.
Qed.

(** No frame raises, some candidate, mutex free: the first candidate
    nearest to the store is appended with the name, the database is
    written, the answer is true whether or not the write went through. *)
Lemma register_new_user_some name n w :
  let known := known_encodings (self w) in
  let d := min_distance_to known in
  let cands := candidates n (feed (camera w)) in
  mutex_held (self w) = false →
  attempts_raise n (feed (camera w)) = false →
  cands ≠ [] →
  ∃ i e w',
    cands !! i = Some e
    ∧ (∀ y, y ∈ cands → (d e <= d y)%Q)
    ∧ (∀ j y, (j < i)%nat → cands !! j = Some y → (d e < d y)%Q)
    ∧ register_new_user name n w = Returned true w'
    ∧ known_encodings (self w') = known ++ [e]
    ∧ known_names (self w') = known_names (self w) ++ [name]
    ∧ mutex_held (self w') = false
    ∧ (disk_fault (disk w) = NoFault →
       db_file (disk w')
       = Some (Pickle (Pickled (Some (known ++ [e]))
                               (Some (known_names (self w) ++ [name]))
                               (Some (clock (disk w))))))
    ∧ (persist_fails w →
       db_file (disk w') = db_file (disk w)
       ∨ db_file (disk w') = None
       ∨ db_file (disk w') = Some Corrupt)
    ∧ feed (camera w') = drop n (feed (camera w))
    ∧ is_open (camera w') = false.
Proof.
  intros known d cands Hfree Hquiet Hne.
  destruct (keep_nearest_from_nothing known cands Hne)
    as (i & e & Hfold & Hi & Hle & Hlt).
  exists i, e.
  unfold register_new_user, mbind, M_bind, bind, video_capture.
  destruct (register_loop_run n w Hquiet)
    as (w1 & Hloop & Hself & Hdisk & Hfeed).
  fold known cands in Hloop. rewrite Hfold in Hloop.
  unfold try_finally, try_except. rewrite Hloop. cbn [fst].
  unfold append_known_encoding, append_known_name.
  match goal with |- context [save_database ?x] => set (w2 := x) end.
  assert (Hfree2 : mutex_held (self w2) = false)
    by (subst w2; cbn; by rewrite Hself).
  destruct (save_database_returns w2 Hfree2)
    as (w3 & Hsave & Hself3 & Hcam3 & _ & _ & Hok & Hfail).
  rewrite Hsave. step. eexists. split; [done|]. split; [done|].
  split; [done|]. split; [reflexivity|]. cbn. rewrite Hself3, Hcam3.
  subst w2. cbn. rewrite Hself. cbn.
  split; [done|]. split; [done|]. split; [done|].
  unfold snapshot, persist_fails in Hok, Hfail. cbn in Hok, Hfail.
  rewrite Hself, Hdisk in Hok. rewrite Hdisk in Hfail. cbn in Hok.
  split; [exact Hok|]. split; [exact Hfail|]. done.
Qed.

(** No frame raises, some candidate, mutex held by the caller: the record
    is appended and the thread blocks in [save_database]. *)
Lemma register_new_user_held name n w :
  let cands := candidates n (feed (camera w)) in
  mutex_held (self w) = true →
  attempts_raise n (feed (camera w)) = false →
  cands ≠ [] →
  ∃ e w',
    e ∈ cands
    ∧ register_new_user name n w = Blocked w'
    ∧ known_encodings (self w') = known_encodings (self w) ++ [e]
    ∧ known_names (self w') = known_names (self w) ++ [name].
Proof.
  intros cands Hheld Hquiet Hne.
  destruct (keep_nearest_from_nothing (known_encodings (self w)) cands Hne)
    as (i & e & Hfold & Hi & _).
  exists e.
  unfold register_new_user, mbind, M_bind, bind, video_capture.
  destruct (register_loop_run n w Hquiet)
    as (w1 & Hloop & Hself & Hdisk & Hfeed).
  fold cands in Hloop. rewrite Hfold in Hloop.
  unfold try_finally, try_except. rewrite Hloop. cbn [fst].
  unfold append_known_encoding, append_known_name.
  match goal with |- context [save_database ?x] => set (w2 := x) end.
  assert (Hheld2 : mutex_held (self w2) = true)
    by (subst w2; cbn; by rewrite Hself).
  rewrite (save_database_blocks w2 Hheld2).
  eexists. split; [by eapply list_elem_of_lookup_2|].
  split; [reflexivity|]. subst w2. cbn. by rewrite Hself.
Qed.

(** ** [remove_user] *)

Lemma list_index_spec name (l : list string) :
  name ∈ l → ∃ i, list_index name l = Some i ∧ l !! i = Some name.
Proof.
  induction l as [|y r IH]; [by intros ?%elem_of_nil|].
  intros Hin. simpl. destruct (String.eqb_spec y name) as [->|Hne].
  - by exists 0%nat.
  - apply elem_of_cons in Hin as [->|Hin]; [done|].
    destruct (IH Hin) as (i & -> & Hi). by exists (S i).
Qed.

(** A caller that holds the mutex blocks at once. *)
Lemma remove_user_held name w :
  mutex_held (self w) = true → remove_user name w = Blocked w.
Proof. unfold remove_user. step. by intros ->. Qed.

(** An unknown name: nothing changes and the answer is false. *)
Lemma remove_user_absent name w :
  mutex_held (self w) = false →
  name ∉ known_names (self w) →
  ∃ w', remove_user name w = Returned false w'
        ∧ self w' = self w ∧ disk w' = disk w.
Proof.
  intros Hfree Hout.
  destruct w as [[ke kn fl fe fn mh] d cam tr]. cbn in *. subst mh.
  unfold remove_user. step. rewrite bool_decide_false by done. cbn.
  finish.
Qed.

(** A known name: its first record is popped from both lists, and then
    [save_database] asks for the mutex that [remove_user] still holds. The
    call never returns and nothing is written to the disk. *)
Lemma remove_user_blocks name w :
  mutex_held (self w) = false →
  name ∈ known_names (self w) →
  ∃ i,
    list_index name (known_names (self w)) = Some i
    ∧ known_names (self w) !! i = Some name
    ∧ ((i < length (known_encodings (self w)))%nat →
       ∃ w', remove_user name w = Blocked w'
             ∧ known_names (self w') = delete i (known_names (self w))
             ∧ known_encodings (self w')
               = delete i (known_encodings (self w))
             ∧ disk w' = disk w)
    ∧ ((length (known_encodings (self w)) ≤ i)%nat →
       ∃ w', remove_user name w = Returned false w'
             ∧ known_names (self w') = delete i (known_names (self w))
             ∧ known_encodings (self w') = known_encodings (self w)
             ∧ disk w' = disk w).
Proof.
  intros Hfree Hin.
  destruct (list_index_spec name _ Hin) as (i & Hidx & Hi).
  exists i. split; [done|]. split; [done|].
  pose proof (lookup_lt_Some _ _ _ Hi) as Hlt.
  destruct w as [[ke kn fl fe fn mh] d cam tr]. cbn in *. subst mh.
  apply Nat.ltb_lt in Hlt.
  unfold remove_user. step. rewrite bool_decide_true by done.
  cbn -[save_database Nat.ltb]. rewrite Hidx.
  cbn -[save_database Nat.ltb]. unfold list_pop. rewrite Hlt.
  cbn -[save_database Nat.ltb]. split; intros Hke.
  - apply Nat.ltb_lt in Hke. rewrite Hke. cbn -[save_database Nat.ltb].
    rewrite save_database_blocks by done. finish.
  - apply Nat.ltb_ge in Hke. rewrite Hke. cbn. finish.
Qed.

(** ** The claims on registration *)

(** C1 (as the code has it). A registration gathers the candidates of
    [max_attempts] camera reads.  With none, or when a library call raises
    on one of the frames, it returns false and neither the store nor the
    disk changes.  With some, no call raising and the mutex free, it keeps
    the candidate whose minimum distance to the stored signatures is the
    SMALLEST (the first such candidate; every candidate counts as distance
    0 from an empty store), appends it and the name, calls [save_database]
    (which leaves the new lists in the file when the write goes through)
    and returns true. *)
Theorem C1_register_keeps_nearest (name : string) (n : nat) (w : World) :
  let known := known_encodings (self w) in
  let d := min_distance_to known in
  let cands := candidates n (feed (camera w)) in
  mutex_held (self w) = false →
  (cands = [] ∨ attempts_raise n (feed (camera w)) = true →
   ∃ w', register_new_user name n w = Returned false w'
         ∧ self w' = self w ∧ disk w' = disk w)
  ∧ (attempts_raise n (feed (camera w)) = false →
     cands ≠ [] →
     ∃ i e w',
       cands !! i = Some e
       ∧ (∀ y, y ∈ cands → (d e <= d y)%Q)
       ∧ (∀ j y, (j < i)%nat → cands !! j = Some y → (d e < d y)%Q)
       ∧ register_new_user name n w = Returned true w'
       ∧ known_encodings (self w') = known ++ [e]
       ∧ known_names (self w') = known_names (self w) ++ [name]
       ∧ (disk_fault (disk w) = NoFault →
          db_file (disk w')
          = Some (Pickle (Pickled (Some (known ++ [e]))
                                  (Some (known_names (self w) ++ [name]))
                                  (Some (clock (disk w))))))).
Proof.
  intros known d cands Hfree. split.
  - apply register_new_user_fails.
  - intros Hquiet Hne.
    destruct (register_new_user_some name n w Hfree Hquiet Hne)
      as (i & e & w' & H1 & H2 & H3 & H4 & H5 & H6 & _ & H7 & _).
    by exists i, e, w'.
Qed.

(** C7 (as the code has it). When the write of the database goes wrong,
    [save_database] catches the error: it returns normally and leaves the
    manager as it was.  A registration that gathered a candidate, no
    library call raising on a frame, therefore still returns true, its
    record stays appended in memory, and the file is the old one, missing
    or truncated. *)
Theorem C7_persist_failure_is_swallowed (name : string) (n : nat)
    (w : World) :
  mutex_held (self w) = false →
  persist_fails w →
  (∃ w', save_database w = Returned tt w' ∧ self w' = self w)
  ∧ (attempts_raise n (feed (camera w)) = false →
     candidates n (feed (camera w)) ≠ [] →
     ∃ e w',
       e ∈ candidates n (feed (camera w))
       ∧ register_new_user name n w = Returned true w'
       ∧ known_encodings (self w') = known_encodings (self w) ++ [e]
       ∧ known_names (self w') = known_names (self w) ++ [name]
       ∧ (db_file (disk w') = db_file (disk w)
          ∨ db_file (disk w') = None
          ∨ db_file (disk w') = Some Corrupt)).
Proof.
  intros Hfree Hfail. split.
  - destruct (save_database_returns w Hfree) as (w' & Hsave & Hself & _).
    by exists w'.
  - intros Hquiet Hne.
    destruct (register_new_user_some name n w Hfree Hquiet Hne)
      as (i & e & w' & H1 & _ & _ & H4 & H5 & H6 & _ & _ & H8 & _).
    exists e, w'. split; [by eapply list_elem_of_lookup_2|]. auto.
Qed.

(** ** The invariants of the store *)

Lemma records_snoc (kn : list string) (ke : list Sig) n e :
  length kn = length ke →
  records (kn ++ [n]) (ke ++ [e]) = records kn ke ++ [(n, e)].
Proof. intros Hlen. unfold records. by rewrite zip_with_app. Qed.

Lemma records_delete i (kn : list string) (ke : list Sig) :
  records (delete i kn) (delete i ke) = delete i (records kn ke).
Proof.
  unfold records. revert i ke.
  induction kn as [|n kn IH]; intros i ke.
  - by destruct i.
  - destruct ke as [|e ke], i as [|i]; cbn.
    + by destruct kn.
    + done.
    + done.
    + by rewrite IH.
Qed.

(** Where a registration ends, whatever the mutex. *)
Lemma register_new_user_final name n w :
  ((candidates n (feed (camera w)) = []
    ∨ attempts_raise n (feed (camera w)) = true)
   ∧ self (final (register_new_user name n w)) = self w)
  ∨ (attempts_raise n (feed (camera w)) = false
     ∧ ∃ e, e ∈ candidates n (feed (camera w))
            ∧ known_encodings (self (final (register_new_user name n w)))
              = known_encodings (self w) ++ [e]
            ∧ known_names (self (final (register_new_user name n w)))
              = known_names (self w) ++ [name]).
Proof.
  destruct (attempts_raise n (feed (camera w))) eqn:Hr.
  { left. split; [by right|].
    destruct (register_new_user_fails name n w) as (w' & -> & Hself & _);
      [by right|done]. }
  destruct (candidates n (feed (camera w))) as [|c cs] eqn:Hc.
  - left. split; [by left|].
    destruct (register_new_user_fails name n w) as (w' & -> & Hself & _);
      [by left|done].
  - right. split; [done|].
    assert (Hne : candidates n (feed (camera w)) ≠ [])
      by by rewrite Hc.
    rewrite <- Hc.
    destruct (mutex_held (self w)) eqn:Hm.
    + destruct (register_new_user_held name n w Hm Hr Hne)
        as (e & w' & He & -> & H1 & H2).
      by exists e.
    + destruct (register_new_user_some name n w Hm Hr Hne)
        as (i & e & w' & Hi & _ & _ & -> & H1 & H2 & _).
      exists e. split; [by eapply list_elem_of_lookup_2|done].
Qed.

(** Where a removal ends, whatever the mutex. *)
Lemma remove_user_final name w :
  self (final (remove_user name w)) = self w
  ∨ (∃ i, known_names (self w) !! i = Some name
          ∧ known_names (self (final (remove_user name w)))
            = delete i (known_names (self w))
          ∧ ((i < length (known_encodings (self w)))%nat →
             known_encodings (self (final (remove_user name w)))
             = delete i (known_encodings (self w)))
          ∧ ((length (known_encodings (self w)) ≤ i)%nat →
             known_encodings (self (final (remove_user name w)))
             = known_encodings (self w))).
Proof.
  destruct (mutex_held (self w)) eqn:Hm.
  { left. by rewrite remove_user_held. }
  destruct (decide (name ∈ known_names (self w))) as [Hin|Hout].
  - right. destruct (remove_user_blocks name w Hm Hin)
      as (i & _ & Hi & Hlt & Hge).
    exists i. split; [done|].
    destruct (Nat.lt_ge_cases i (length (known_encodings (self w))))
      as [Hc|Hc].
    + destruct (Hlt Hc) as (w' & -> & H1 & H2 & _). cbn.
      split; [done|]. split; [done|]. lia.
    + destruct (Hge Hc) as (w' & -> & H1 & H2 & _). cbn.
      split; [done|]. split; [lia|done].
  - left. destruct (remove_user_absent name w Hm Hout) as (w' & -> & Hs & _).
    done.
Qed.

Lemma load_database_final w :
  self (final (load_database w)) = self w
  ∨ (known_names (self (final (load_database w)))
     = stored_names (db_file (disk w))
     ∧ known_encodings (self (final (load_database w)))
       = stored_encodings (db_file (disk w))).
Proof.
  destruct (mutex_held (self w)) eqn:Hm.
  - left. by rewrite load_database_blocks.
  - right. destruct (load_database_returns w Hm) as (w' & -> & H1 & H2 & _).
    done.
Qed.

(** C10 (as the code has it). From a store whose two lists have the same
    length, a registration with any outcome and a removal of any name leave
    lists of the same length, record [i] pairing name [i] with signature
    [i]: the records are the old ones, the old ones followed by the new
    record, or the old ones without the first record of the removed name.
    Loading keeps the lists parallel when the file is missing, corrupt, or
    holds two lists of equal length. *)
Theorem C10_parallel_lists_preserved (w : World) :
  parallel (self w) →
  (length (stored_names (db_file (disk w)))
   = length (stored_encodings (db_file (disk w))) →
   parallel (self (final (load_database w))))
  ∧ (∀ name n,
       let w' := final (register_new_user name n w) in
       parallel (self w')
       ∧ (records (known_names (self w')) (known_encodings (self w'))
          = records (known_names (self w)) (known_encodings (self w))
          ∨ ∃ e,
              records (known_names (self w')) (known_encodings (self w'))
              = records (known_names (self w)) (known_encodings (self w))
                ++ [(name, e)]))
  ∧ (∀ name,
       let w' := final (remove_user name w) in
       parallel (self w')
       ∧ (records (known_names (self w')) (known_encodings (self w'))
          = records (known_names (self w)) (known_encodings (self w))
          ∨ ∃ i,
              known_names (self w) !! i = Some name
              ∧ records (known_names (self w')) (known_encodings (self w'))
                = delete i (records (known_names (self w))
                                    (known_encodings (self w))))).
Proof.
  unfold parallel. intros Hpar. split; [|split].
  - intros Hfile. destruct (load_database_final w) as [-> | [-> ->]]; done.
  - intros name n. cbv zeta.
    destruct (register_new_user_final name n w)
      as [[_ ->] | (_ & e & _ & -> & ->)].
    + split; [done|by left].
    + split; [by rewrite !length_app, Hpar|].
      right. exists e. by apply records_snoc.
  - intros name. cbv zeta.
    destruct (remove_user_final name w) as [-> | (i & Hi & -> & Hlt & _)].
    + split; [done|by left].
    + pose proof (lookup_lt_Some _ _ _ Hi) as Hi'.
      rewrite Hlt by lia. split.
      * rewrite !length_delete; [lia| |done].
        apply lookup_lt_is_Some. lia.
      * right. exists i. split; [done|]. apply records_delete.
Qed.

(** C3 (as the code has it). Names are not kept unique by the store.  From
    a store without repeated names, a removal leaves no repeated name, and
    so does a registration under a name that is not stored yet; a
    registration under a stored name that gathers a candidate, no library
    call raising on a frame, appends a second record for that name.
    Loading leaves no repeated name when the file holds none. *)
Theorem C3_names_unique_unless_reregistered (w : World) :
  NoDup (known_names (self w)) →
  (NoDup (stored_names (db_file (disk w))) →
   NoDup (known_names (self (final (load_database w)))))
  ∧ (∀ name, NoDup (known_names (self (final (remove_user name w)))))
  ∧ (∀ name n,
       name ∉ known_names (self w) →
       NoDup (known_names (self (final (register_new_user name n w)))))
  ∧ (∀ name n,
       name ∈ known_names (self w) →
       attempts_raise n (feed (camera w)) = false →
       candidates n (feed (camera w)) ≠ [] →
       known_names (self (final (register_new_user name n w)))
       = known_names (self w) ++ [name]
       ∧ ¬ NoDup (known_names (self (final (register_new_user name n w))))).
Proof.
  intros Hnd. split; [|split; [|split]].
  - intros Hfile. destruct (load_database_final w) as [-> | [-> _]]; done.
  - intros name.
    destruct (remove_user_final name w) as [-> | (i & _ & -> & _)];
      [done|].
    eapply sublist_NoDup; [exact Hnd|]. apply sublist_delete.
  - intros name n Hfresh.
    destruct (register_new_user_final name n w)
      as [[_ ->] | (_ & e & _ & _ & ->)]; [done|].
    apply NoDup_app. split; [done|]. split; [|apply NoDup_singleton].
    intros x Hx ->%list_elem_of_singleton. done.
  - intros name n Hin Hquiet Hne.
    destruct (register_new_user_final name n w)
      as [[[Hnone|Hloud] _] | (_ & e & _ & _ & ->)];
      [done|congruence|].
    split; [done|]. intros (_ & Hdisj & _)%NoDup_app.
    apply (Hdisj name Hin), list_elem_of_here.
Qed.

End Store.

(** ** Examples in the concrete environment [LineVision] *)

#[local] Existing Instance LineVision.

(** A store of two records, written to an empty disk and read back by a
    manager that holds nothing; and a corrupt file. *)
Lemma C8_save_load_round_trip_witness :
  let w := @world_of LineVision [1%Q; 2%Q] ["ada"; "bob"] None NoFault [] in
  let fresh (d : Disk) :=
    mkWorld (mkManager [] [] [] [] [] false) d (mkCamera [] false) [] in
  let v := @world_of LineVision [1%Q] ["ada"] (Some Corrupt) NoFault [] in
  mutex_held (self w) = false
  ∧ disk_fault (disk w) = NoFault
  ∧ (∃ w1,
       save_database w = Returned tt w1
       ∧ ∃ w3,
           load_database (fresh (disk w1)) = Returned tt w3
           ∧ known_names (self w3) = ["ada"; "bob"]
           ∧ known_encodings (self w3) = [1%Q; 2%Q]
           ∧ records (known_names (self w3)) (known_encodings (self w3))
             = [("ada", 1%Q); ("bob", 2%Q)])
  ∧ mutex_held (self v) = false
  ∧ db_file (disk v) = Some Corrupt
  ∧ ∃ v',
      load_database v = Returned tt v'
      ∧ known_names (self v') = []
      ∧ known_encodings (self v') = [].
Proof.
  intros w fresh v. split; [reflexivity|]. split; [reflexivity|]. split.
  - destruct (proj1 (@C8_save_load_round_trip LineVision) w eq_refl eq_refl)
      as (w1 & Hsave & _ & Hload).
    exists w1. split; [exact Hsave|].
    exact (Hload (fresh (disk w1)) eq_refl eq_refl).
  - split; [reflexivity|]. split; [reflexivity|].
    exact (proj2 (@C8_save_load_round_trip LineVision) v eq_refl
             (or_intror eq_refl)).
Defined.

(** Two single-face frames at distances 1 and 5 from the one stored
    signature; and a single-face frame followed by an empty image, on which
    the colour conversion raises. *)
Lemma C1_register_keeps_nearest_witness :
  let w := @world_of LineVision [0%Q] ["ada"] None NoFault
             [Some [1%Q]; Some [5%Q]] in
  let v := @world_of LineVision [0%Q] ["ada"] None NoFault
             [Some [1%Q]; Some []] in
  mutex_held (self w) = false
  ∧ attempts_raise 10 (feed (camera w)) = false
  ∧ candidates 10 (feed (camera w)) ≠ []
  ∧ (∃ i e w',
       candidates 10 (feed (camera w)) !! i = Some e
       ∧ (∀ y, y ∈ candidates 10 (feed (camera w)) →
               (min_distance_to [0%Q] e <= min_distance_to [0%Q] y)%Q)
       ∧ (∀ j y, (j < i)%nat →
                 candidates 10 (feed (camera w)) !! j = Some y →
                 (min_distance_to [0%Q] e < min_distance_to [0%Q] y)%Q)
       ∧ register_new_user "bob" 10 w = Returned true w'
       ∧ known_encodings (self w') = [0%Q] ++ [e]
       ∧ known_names (self w') = ["ada"] ++ ["bob"]
       ∧ (disk_fault (disk w) = NoFault →
          db_file (disk w')
          = Some (Pickle (Pickled (Some ([0%Q] ++ [e]))
                                  (Some (["ada"] ++ ["bob"]))
                                  (Some (clock (disk w)))))))
  ∧ mutex_held (self v) = false
  ∧ attempts_raise 3 (feed (camera v)) = true
  ∧ ∃ v', register_new_user "bob" 3 v = Returned false v'
          ∧ self v' = self v ∧ disk v' = disk v.
Proof.
  intros w v.
  assert (Hfree : mutex_held (self w) = false) by reflexivity.
  assert (Hquiet : attempts_raise 10 (feed (camera w)) = false)
    by reflexivity.
  assert (Hne : candidates 10 (feed (camera w)) ≠ []) by discriminate.
  assert (Hfree' : mutex_held (self v) = false) by reflexivity.
  assert (Hloud : attempts_raise 3 (feed (camera v)) = true) by reflexivity.
  split; [exact Hfree|]. split; [exact Hquiet|]. split; [exact Hne|].
  split.
  - exact (proj2 (@C1_register_keeps_nearest LineVision "bob" 10 w Hfree)
             Hquiet Hne).
  - split; [exact Hfree'|]. split; [exact Hloud|].
    exact (proj1 (@C1_register_keeps_nearest LineVision "bob" 3 v Hfree')
             (or_intror Hloud)).
Defined.

(** C1 as the specification words it fails: of the candidates at distances
    1 and 5 from the store, the registration keeps the one at distance 1,
    not the one whose minimum distance is largest. *)
Lemma C1_largest_distance_not_kept :
  let w := @world_of LineVision [0%Q] ["ada"] None NoFault
             [Some [1%Q]; Some [5%Q]] in
  candidates 10 (feed (camera w)) = [1%Q; 5%Q]
  ∧ register_new_user "bob" 10 w
    = Returned true (final (register_new_user "bob" 10 w))
  ∧ known_encodings (self (final (register_new_user "bob" 10 w)))
    = [0%Q; 1%Q]
  ∧ ¬ (∀ y, y ∈ [1%Q; 5%Q] →
            (min_distance_to [0%Q] y <= min_distance_to [0%Q] 1%Q)%Q).
Proof.
  intros w. split; [reflexivity|]. split; [reflexivity|].
  split; [reflexivity|].
  intros Hlargest.
  assert (H5 : (5%Q : @Sig LineVision) ∈ [1%Q; 5%Q])
    by (apply list_elem_of_further, list_elem_of_here).
  specialize (Hlargest _ H5). vm_compute in Hlargest. by apply Hlargest.
Qed.

(** A disk that refuses to open the database file for writing, and a
    registration from one single-face frame. *)
Lemma C7_persist_failure_is_swallowed_witness :
  let w := @world_of LineVision [] [] None OpenFails [Some [1%Q]] in
  mutex_held (self w) = false
  ∧ persist_fails w
  ∧ attempts_raise 10 (feed (camera w)) = false
  ∧ candidates 10 (feed (camera w)) ≠ []
  ∧ (∃ w', save_database w = Returned tt w' ∧ self w' = self w)
  ∧ ∃ e w',
      e ∈ candidates 10 (feed (camera w))
      ∧ register_new_user "bob" 10 w = Returned true w'
      ∧ known_encodings (self w') = known_encodings (self w) ++ [e]
      ∧ known_names (self w') = known_names (self w) ++ ["bob"]
      ∧ (db_file (disk w') = db_file (disk w)
         ∨ db_file (disk w') = None
         ∨ db_file (disk w') = Some Corrupt).
Proof.
  intros w.
  assert (Hfree : mutex_held (self w) = false) by reflexivity.
  assert (Hfail : persist_fails w) by exact I.
  assert (Hquiet : attempts_raise 10 (feed (camera w)) = false)
    by reflexivity.
  assert (Hne : candidates 10 (feed (camera w)) ≠ []) by discriminate.
  split; [exact Hfree|]. split; [exact Hfail|]. split; [exact Hquiet|].
  split; [exact Hne|].
  pose proof (@C7_persist_failure_is_swallowed LineVision "bob" 10 w
                Hfree Hfail) as [Hsave Hreg].
  split; [exact Hsave|exact (Hreg Hquiet Hne)].
Defined.

(** C7 as the specification words it fails: the write fails, the file is
    not there afterwards, and the registration still reports success. *)
Lemma C7_register_reports_success_on_failed_write :
  let w := @world_of LineVision [] [] None OpenFails [Some [1%Q]] in
  persist_fails w
  ∧ register_new_user "bob" 10 w
    = Returned true (final (register_new_user "bob" 10 w))
  ∧ db_file (disk (final (register_new_user "bob" 10 w))) = None
  ∧ known_names (self (final (register_new_user "bob" 10 w))) = ["bob"]
  ∧ returned (register_new_user "bob" 10 w) ≠ Some false.
Proof.
  intros w. split; [exact I|]. split; [reflexivity|].
  split; [reflexivity|]. split; [reflexivity|]. discriminate.
Qed.


(** C9. On a store of one record: loading, saving and removing touch the
    shared lists only between [lock] and [unlock]; [identify_face] and
    [register_new_user] read them, and the registration appends to them,
    with the mutex not taken; and the removal of a stored name blocks in
    the second [lock] of the mutex it already holds. *)
Lemma C9_identify_and_register_skip_the_mutex :
  let w := @world_of LineVision [0%Q] ["ada"] None NoFault [Some [1%Q]] in
  guarded (trace (final (load_database w))) = true
  ∧ guarded (trace (final (save_database w))) = true
  ∧ guarded (trace (final (remove_user "ada" w))) = true
  ∧ trace (final (identify_face (Some [0%Q]) w))
    = [EvRead; EvRead; EvRead; EvRead]
  ∧ guarded (trace (final (identify_face (Some [0%Q]) w))) = false
  ∧ trace (final (register_new_user "bob" 10 w))
    = [EvRead; EvRead; EvWrite; EvWrite; EvLock; EvRead; EvRead; EvUnlock]
  ∧ guarded (trace (final (register_new_user "bob" 10 w))) = false
  ∧ remove_user "ada" w = Blocked (final (remove_user "ada" w)).
Proof. intros w. repeat split; reflexivity. Qed.

(** A registration on a store of one record. *)
Lemma C10_parallel_lists_preserved_witness :
  let w := @world_of LineVision [0%Q] ["ada"] None NoFault [Some [1%Q]] in
  parallel (self w)
  ∧ parallel (self (final (register_new_user "bob" 10 w)))
  ∧ (records (known_names (self (final (register_new_user "bob" 10 w))))
             (known_encodings (self (final (register_new_user "bob" 10 w))))
     = records (known_names (self w)) (known_encodings (self w))
     ∨ ∃ e,
         records (known_names (self (final (register_new_user "bob" 10 w))))
                 (known_encodings
                    (self (final (register_new_user "bob" 10 w))))
         = records (known_names (self w)) (known_encodings (self w))
           ++ [("bob", e)]).
Proof.
  intros w.
  assert (Hpar : parallel (self w)) by reflexivity.
  split; [exact Hpar|].
  exact (proj1 (proj2 (@C10_parallel_lists_preserved LineVision w Hpar))
           "bob" 10%nat).
Defined.

(** C10 as the specification words it fails: a pickled dict that has the
    key [encodings] and lacks the key [names] loads into lists of lengths
    1 and 0. *)
Lemma C10_load_breaks_parallel_lists :
  let w := @world_of LineVision [] []
             (Some (Pickle (Pickled (Some [1%Q]) None None))) NoFault [] in
  parallel (self w)
  ∧ load_database w = Returned tt (final (load_database w))
  ∧ known_names (self (final (load_database w))) = []
  ∧ known_encodings (self (final (load_database w))) = [1%Q]
  ∧ ¬ parallel (self (final (load_database w))).
Proof.
  intros w. split; [reflexivity|]. split; [reflexivity|].
  split; [reflexivity|]. split; [reflexivity|]. discriminate.
Qed.

(** A registration under a name that is not stored yet, and one under
    the stored name. *)
Lemma C3_names_unique_unless_reregistered_witness :
  let w := @world_of LineVision [0%Q] ["ada"] None NoFault [Some [1%Q]] in
  NoDup (known_names (self w))
  ∧ ("bob" ∉ known_names (self w))
  ∧ NoDup (known_names (self (final (register_new_user "bob" 10 w))))
  ∧ ("ada" ∈ known_names (self w))
  ∧ attempts_raise 10 (feed (camera w)) = false
  ∧ candidates 10 (feed (camera w)) ≠ []
  ∧ known_names (self (final (register_new_user "ada" 10 w)))
    = known_names (self w) ++ ["ada"]
  ∧ ¬ NoDup (known_names (self (final (register_new_user "ada" 10 w)))).
Proof.
  intros w.
  assert (Hnd : NoDup (known_names (self w)))
    by (apply NoDup_singleton).
  assert (Hfresh : "bob" ∉ known_names (self w))
    by (intros Hin%list_elem_of_singleton; discriminate Hin).
  assert (Hin : "ada" ∈ known_names (self w)) by apply list_elem_of_here.
  assert (Hquiet : attempts_raise 10 (feed (camera w)) = false)
    by reflexivity.
  assert (Hne : candidates 10 (feed (camera w)) ≠ []) by discriminate.
  split; [exact Hnd|]. split; [exact Hfresh|].
  pose proof (@C3_names_unique_unless_reregistered LineVision w Hnd)
    as (_ & _ & Hnew & Hagain).
  split; [exact (Hnew "bob" 10%nat Hfresh)|].
  split; [exact Hin|]. split; [exact Hquiet|]. split; [exact Hne|].
  exact (Hagain "ada" 10%nat Hin Hquiet Hne).
Defined.

(** C3 as the specification words it fails: registering the stored name
    "ada" again succeeds and leaves two records under that name. *)
Lemma C3_register_duplicates_a_name :
  let w := @world_of LineVision [0%Q] ["ada"] None NoFault [Some [3%Q]] in
  NoDup (known_names (self w))
  ∧ register_new_user "ada" 10 w
    = Returned true (final (register_new_user "ada" 10 w))
  ∧ known_names (self (final (register_new_user "ada" 10 w)))
    = ["ada"; "ada"]
  ∧ ¬ NoDup (known_names (self (final (register_new_user "ada" 10 w)))).
Proof.
  intros w. split; [apply NoDup_singleton|]. split; [reflexivity|].
  split; [reflexivity|].
  change (¬ NoDup ["ada"; "ada"]).
  intros Hnd. apply NoDup_cons in Hnd as [Hnotin _].
  apply Hnotin, list_elem_of_here.
Qed.

End FaceSpec.


(* ===================================================================== *)
(** * Further properties of the chatbot                                   *)
(* ===================================================================== *)

Module ChatbotExtra.
Import PyStr Chatbot ChatbotSpec.

(** ** Scores and keywords *)

Lemma score_nonneg kws message : 0 ≤ score kws message.
Proof.
  induction kws as [|kw kws IH]; [done|].
  rewrite score_cons. destruct (contains kw message); lia.
Qed.

Lemma score_pos kws message :
  0 < score kws message ↔ ∃ kw, kw ∈ kws ∧ contains kw message = true.
Proof.
  induction kws as [|kw kws IH].
  - split; [done|]. by intros (kw & ?%elem_of_nil & _).
  - rewrite score_cons. split.
    + destruct (contains kw message) eqn:E.
      * intros _. exists kw. split; [apply list_elem_of_here|done].
      * intros Hpos. destruct (proj1 IH) as (kw' & Hin & Hc); [lia|].
        exists kw'. split; [by apply list_elem_of_further|done].
    + intros (kw' & [->|Hin]%elem_of_cons & Hc).
      * rewrite Hc. pose proof (score_nonneg kws message). lia.
      * assert (0 < score kws message) by (apply IH; eauto).
        destruct (contains kw message); lia.
Qed.

Lemma dict_get_member {V} (d : list (string * V)) k v :
  NoDup d.*1 → (k, v) ∈ d → dict_get d k = Some v.
Proof.
  induction d as [|[k0 v0] d IH]; [by intros _ ?%elem_of_nil|].
  simpl. intros [Hk0 Hnd]%NoDup_cons [[= -> ->]|Hin]%elem_of_cons.
  - by rewrite String.eqb_refl.
  - destruct (String.eqb_spec k0 k) as [->|_]; [|by apply IH].
    destruct Hk0. apply list_elem_of_fmap. by exists (k, v).
Qed.

Lemma dict_get_Some_member {V} (d : list (string * V)) k v :
  dict_get d k = Some v → (k, v) ∈ d.
Proof.
  induction d as [|[k0 v0] d IH]; [done|]. simpl.
  destruct (String.eqb_spec k0 k) as [->|_].
  - intros [= ->]. apply list_elem_of_here.
  - intros Hd. by apply list_elem_of_further, IH.
Qed.

Lemma category_is_key c :
  c ∈ categories → ∃ kws, dict_get keywords c = Some kws.
Proof.
  unfold categories, dict_keys. intros ([c' kws] & -> & Hin)%list_elem_of_fmap.
  exists kws. apply dict_get_member; [apply keywords_nodup|done].
Qed.

(** A keyword of the table occurs in the message exactly when some
    category has a positive score. *)
Lemma no_keyword_false message :
  no_keyword message = false
  ↔ ∃ c, c ∈ categories ∧ 0 < category_score message c.
Proof.
  split.
  - unfold no_keyword, no_keyword_but.
    generalize keywords_nodup. unfold category_score, categories, dict_keys.
    generalize keywords. intros t Hnd Hall.
    assert (∃ c kws kw, (c, kws) ∈ t ∧ kw ∈ kws
                        ∧ contains kw message = true)
      as (c & kws & kw & Hc & Hkw & Hin).
    { clear Hnd. induction t as [|[c kws] t IH]; [done|].
      simpl in Hall. apply andb_false_iff in Hall as [Hhere|Hrest].
      - exists c, kws.
        assert (∃ kw, kw ∈ kws ∧ contains kw message = true)
          as (kw & ? & ?).
        { clear -Hhere. induction kws as [|kw kws IH]; [done|].
          simpl in Hhere. apply andb_false_iff in Hhere as [Hk|Hr].
          - exists kw. split; [apply list_elem_of_here|].
            by apply negb_false_iff.
          - destruct (IH Hr) as (kw' & ? & ?). exists kw'.
            split; [by apply list_elem_of_further|done]. }
        exists kw. split; [apply list_elem_of_here|done].
      - destruct (IH Hrest) as (c' & kws' & kw & ? & ? & ?).
        exists c', kws', kw. split; [by apply list_elem_of_further|done]. }
    exists c. split.
    + apply list_elem_of_fmap. by exists (c, kws).
    + rewrite (dict_get_member t c kws Hnd Hc). simpl.
      apply score_pos. eauto.
  - intros (c & Hc & Hpos).
    destruct (category_is_key c Hc) as [kws Hkws].
    unfold category_score in Hpos. rewrite Hkws in Hpos. simpl in Hpos.
    apply score_pos in Hpos as (kw & Hkw & Hin).
    destruct (no_keyword message) eqn:E; [|done].
    destruct (no_keyword_but_elim None message c kws kw E
                (dict_get_Some_member _ _ _ Hkws) Hkw); congruence.
Qed.

(** The category of the best positive score, as [max] finds it. *)
Lemma categorize_best message c :
  c ∈ categories → 0 < category_score message c →
  _categorize_message message ∈ categories
  ∧ category_score message c
    ≤ category_score message (_categorize_message message).
Proof.
  intros Hc Hpos. unfold _categorize_message, categorize_with.
  rewrite keys_category_scores.
  destruct (py_max (score_key (category_scores_of keywords message))
                   categories) as [best|] eqn:Hmax.
  - apply py_max_first in Hmax as (i & Hi & Hle & _).
    assert (Hbest : best ∈ categories) by by eapply list_elem_of_lookup_2.
    specialize (Hle c Hc). rewrite !score_key_keywords in Hle by done.
    rewrite score_key_keywords by done.
    destruct (Z.ltb_spec 0 (category_score message best)); [done|lia].
  - by destruct categories eqn:E.
Qed.

(** Without any keyword every score is zero and the two tests that follow
    the scoring (for a question mark and for a help word) fail as well,
    their words being keywords themselves. *)
Lemma categorize_no_keyword message :
  no_keyword message = true → _categorize_message message = "default".
Proof.
  intros Hno.
  assert (Habs : ∀ c kws kw, (c, kws) ∈ keywords → kw ∈ kws →
                             contains kw message = false).
  { intros c kws kw Hc Hkw.
    by destruct (no_keyword_but_elim None message c kws kw Hno Hc Hkw). }
  assert (Hscores : category_scores_of keywords message
                    = map (λ '(c, _), (c, 0)) keywords).
  { rewrite category_scores_map by apply keywords_nodup.
    apply map_ext_in. intros [c kws] Hin%list_elem_of_In. f_equal.
    apply score_absent, Forall_forall. intros kw Hkw. by eapply Habs. }
  unfold _categorize_message, categorize_with. rewrite Hscores.
  pose proof (Habs "questions"
                ["what"; "how"; "why"; "when"; "where"; "who"; "?"]) as Hq.
  pose proof (Habs "help_requests"
                ["help"; "assist"; "support"; "can you"; "could you";
                 "would you"]) as Hh.
  rewrite (Hq "?"); [| unfold keywords; in_list | in_list].
  cbn [existsb].
  rewrite (Hh "help"), (Hh "assist"), (Hh "support");
    try (unfold keywords; in_list).
  by vm_compute.
Qed.

(** Enumeration of the categories of the table. *)
Ltac each_category H :=
  unfold categories, dict_keys, keywords in H; cbn [fmap list_fmap fst] in H;
  repeat (apply elem_of_cons in H as [->|H]);
  [..|by apply elem_of_nil in H].

(** X1. A message in which the keywords of exactly one category occur is
    put in that category. *)
Theorem X1_single_category (message c : string) :
  c ∈ categories →
  0 < category_score message c →
  (∀ c', c' ∈ categories → c' ≠ c → category_score message c' = 0) →
  _categorize_message message = c.
Proof.
  intros Hc Hpos Hothers.
  destruct (categorize_best message c Hc Hpos) as [Hbest Hle].
  destruct (decide (_categorize_message message = c)) as [?|Hne]; [done|].
  specialize (Hothers _ Hbest Hne). lia.
Qed.

Lemma X1_single_category_witness :
  "goodbye" ∈ categories
  ∧ 0 < category_score "goodbye for now" "goodbye"
  ∧ _categorize_message "goodbye for now" = "goodbye".
Proof.
  assert (Hc : "goodbye" ∈ categories)
    by (apply (bool_decide_unpack _); vm_compute; exact I).
  assert (Hpos : 0 < category_score "goodbye for now" "goodbye")
    by (vm_compute; reflexivity).
  split; [exact Hc|]. split; [exact Hpos|].
  apply (X1_single_category "goodbye for now" "goodbye" Hc Hpos).
  intros c' Hc' Hne. each_category Hc';
    first [by vm_compute | by destruct Hne].
Defined.

(** X2. The answer is the default category exactly when no keyword of the
    table occurs in the message; otherwise it is a category of the table
    with a positive score.  The tests for a question mark and for a help
    word that follow the scoring never decide the answer. *)
Theorem X2_default_iff_no_keyword (message : string) :
  (_categorize_message message = "default" ↔ no_keyword message = true)
  ∧ (no_keyword message = false →
     _categorize_message message ∈ categories
     ∧ 0 < category_score message (_categorize_message message)).
Proof.
  assert (Hsome : no_keyword message = false →
                  _categorize_message message ∈ categories
                  ∧ 0 < category_score message (_categorize_message message)).
  { intros (c & Hc & Hpos)%no_keyword_false.
    destruct (categorize_best message c Hc Hpos) as [Hbest Hle].
    split; [done|lia]. }
  split; [|done]. split; [|apply categorize_no_keyword].
  intros Hdef. destruct (no_keyword message) eqn:E; [done|].
  destruct (Hsome eq_refl) as [Hin _]. rewrite Hdef in Hin.
  exfalso. revert Hin. apply (bool_decide_unpack _). by vm_compute.
Qed.

Lemma X2_default_iff_no_keyword_witness :
  no_keyword "is it raining?" = false
  ∧ _categorize_message "is it raining?" ∈ categories
  ∧ 0 < category_score "is it raining?" (_categorize_message "is it raining?").
Proof.
  assert (H : no_keyword "is it raining?" = false) by (vm_compute; reflexivity).
  split; [exact H|].
  exact (proj2 (X2_default_iff_no_keyword "is it raining?") H).
Defined.

(** ** [get_response] on any message *)

Lemma categorize_range message :
  _categorize_message message ∈ categories
  ∨ _categorize_message message = "default".
Proof.
  destruct (no_keyword message) eqn:E.
  - right. by apply categorize_no_keyword.
  - left. apply no_keyword_false in E as (c & Hc & Hpos).
    by destruct (categorize_best message c Hc Hpos).
Qed.

Lemma canned_nonempty c :
  c ∈ categories ∨ c = "default" → canned c ≠ [].
Proof.
  intros [Hc| ->]; [|by vm_compute].
  each_category Hc; by vm_compute.
Qed.

Lemma random_choice_member e (l : list string) :
  l ≠ [] → ∃ x, random_choice e l = Some x ∧ x ∈ l.
Proof.
  intros Hne. unfold random_choice. destruct l as [|y r] eqn:El; [done|].
  rewrite <- El.
  assert (Hlt : (draw e mod length l < length l)%nat).
  { apply Nat.mod_upper_bound. by rewrite El. }
  destruct (lookup_lt_is_Some_2 l _ Hlt) as [x Hx].
  exists x. split; [done|]. by eapply list_elem_of_lookup_2.
Qed.

(** The turn counter that [get_response] compares with 1 is the one it has
    just advanced. *)
Lemma bumped_count_is_one u ctx :
  truthy u = true →
  (default 0 (message_count <$> bump_context (Some u) ctx !! u) =? 1)
  = (message_count (default (Context 0 []) (ctx !! u)) =? 0).
Proof.
  intros Hu. rewrite (bump_context_named u ctx Hu). simpl.
  destruct (Z.eqb_spec (message_count (default (Context 0 []) (ctx !! u))) 0),
           (Z.eqb_spec (message_count (default (Context 0 []) (ctx !! u)) + 1)
                       1); try done; lia.
Qed.

(** The draw from the canned responses of a message's category never
    fails. *)
Lemma canned_choice e message :
  ∃ base,
    random_choice e (canned (_categorize_message message)) = Some base
    ∧ base ∈ canned (_categorize_message message).
Proof. apply random_choice_member, canned_nonempty, categorize_range. Qed.

(** X3. [get_response] never lets an exception escape: for every message,
    user name and state it returns a response. *)
Theorem X3_get_response_always_answers (e : Env) (message : string)
    (user_name : option string) (s : ChatbotManager) :
  ∃ r, (get_response e message user_name s).1 = Some r.
Proof.
  unfold get_response, get_response_with.
  destruct (truthy (strip (lower message))); cbn [negb]; [|by eexists].
  fold (canned (_categorize_message (strip (lower message)))).
  destruct (random_choice_member e
              (canned (_categorize_message (strip (lower message)))))
    as (base & -> & _).
  { apply canned_nonempty, categorize_range. }
  by eexists.
Qed.

(** X4. The response to a message that is not blank is one of the canned
    responses of the message's category, decorated for a named user only:
    with a leading "Hello <name>! " when the category is [greetings] and
    the user had no turn counted before this message, with a trailing
    " What do you think, <name>?" when the category is [questions] or
    [help_requests], and not at all otherwise. *)
Theorem X4_response_shape (e : Env) (message : string)
    (user_name : option string) (s : ChatbotManager) :
  truthy (strip (lower message)) = true →
  let c := _categorize_message (strip (lower message)) in
  ∃ base,
    base ∈ canned c
    ∧ (get_response e message user_name s).1
      = Some (match user_name with
              | Some u =>
                  if truthy u then
                    if String.eqb c "greetings" && (turns_of u s =? 0)
                    then "Hello " +:+ u +:+ "! " +:+ base
                    else if String.eqb c "questions"
                            || String.eqb c "help_requests"
                         then base +:+ " What do you think, " +:+ u +:+ "?"
                         else base
                  else base
              | None => base
              end).
Proof.
  intros Hmsg c. unfold get_response, get_response_with.
  rewrite Hmsg. cbn [negb]. fold c. fold (canned c).
  destruct (random_choice_member e (canned c)) as (base & -> & Hbase).
  { apply canned_nonempty, categorize_range. }
  exists base. split; [done|]. cbn [fst]. f_equal.
  destruct user_name as [u|]; [|done].
  destruct (truthy u) eqn:Hu; [|done]. cbn [andb].
  rewrite (bumped_count_is_one u _ Hu). unfold turns_of, get_user_stats.
  cbn [existsb]. rewrite orb_false_r.
  destruct (String.eqb_spec c "goodbye") as [Hg|_]; [|done].
  rewrite Hg. done.
Qed.

Lemma X4_response_shape_witness :
  truthy (strip (lower "  Hello there ")) = true
  ∧ ∃ base,
      base ∈ canned "greetings"
      ∧ (get_response (Build_Env "12:00" 2) "  Hello there " (Some "ada")
                      (Manager [] ∅)).1
        = Some ("Hello " +:+ "ada" +:+ "! " +:+ base).
Proof.
  assert (H : truthy (strip (lower "  Hello there ")) = true) by reflexivity.
  split; [exact H|].
  exact (X4_response_shape (Build_Env "12:00" 2) "  Hello there "
           (Some "ada") (Manager [] ∅) H).
Defined.

(** ** The conversation log *)

(** Whatever the message, [get_response] has logged the turn and advanced
    the counter before it looks at the text. *)
Lemma get_response_state e message user_name s :
  (get_response e message user_name s).2
  = Manager (conversation_history s
             ++ [Turn (speaker user_name) message (now e)])
            (bump_context user_name (session_context s)).
Proof.
  unfold get_response, get_response_with.
  destruct (negb _); [done|]. by destruct (random_choice _ _).
Qed.

Lemma filter_user_snoc (u : string) (l : list turn) (t : turn) :
  filter (λ msg, t_user msg = u) (l ++ [t])
  = filter (λ msg, t_user msg = u) l
    ++ (if decide (t_user t = u) then [t] else []).
Proof.
  by rewrite filter_app.
Qed.

(** X5. After [get_response] for a named user, that user's conversation
    history is the former one followed by the new turn and the user's turn
    counter is one higher, whatever the message; the history and the
    statistics of every other named user are unchanged. *)
Theorem X5_turn_is_logged_for_its_user (e : Env) (message u : string)
    (s : ChatbotManager) :
  truthy u = true →
  let s' := (get_response e message (Some u) s).2 in
  get_conversation_history (Some u) s'
  = get_conversation_history (Some u) s ++ [Turn u message (now e)]
  ∧ turns_of u s' = turns_of u s + 1
  ∧ (∀ v, truthy v = true → v ≠ u →
          get_conversation_history (Some v) s'
          = get_conversation_history (Some v) s
          ∧ get_user_stats v s' = get_user_stats v s).
Proof.
  intros Hu s'. subst s'. rewrite get_response_state.
  unfold get_conversation_history, turns_of, get_user_stats, speaker.
  rewrite Hu. cbn [conversation_history session_context].
  split; [|split].
  - rewrite filter_user_snoc. cbn [t_user]. by rewrite decide_True.
  - by rewrite (bump_context_named u _ Hu).
  - intros v Hv Hne. rewrite Hv. split.
    + rewrite filter_user_snoc. cbn [t_user].
      rewrite decide_False by done. by rewrite app_nil_r.
    + rewrite bump_context_other; [done|congruence].
Qed.

Lemma X5_turn_is_logged_for_its_user_witness :
  truthy "ada" = true
  ∧ get_conversation_history (Some "ada")
      (get_response (Build_Env "12:00" 0) "hello" (Some "ada")
                    (Manager [Turn "bob" "hi" "11:59"] ∅)).2
    = [Turn "ada" "hello" "12:00"].
Proof.
  split; [reflexivity|].
  exact (proj1 (X5_turn_is_logged_for_its_user (Build_Env "12:00" 0) "hello"
                  "ada" (Manager [Turn "bob" "hi" "11:59"] ∅) eq_refl)).
Defined.

(** X6. A message sent without a user name, or with an empty one, is
    logged under the name "Unknown": it is appended to the history that
    [get_conversation_history] returns for "Unknown", and no turn counter
    changes. *)
Theorem X6_anonymous_turns_go_to_unknown (e : Env) (message : string)
    (user_name : option string) (s : ChatbotManager) :
  truthy_opt user_name = false →
  let s' := (get_response e message user_name s).2 in
  get_conversation_history (Some "Unknown") s'
  = get_conversation_history (Some "Unknown") s
    ++ [Turn "Unknown" message (now e)]
  ∧ session_context s' = session_context s.
Proof.
  intros Hanon s'. subst s'. rewrite get_response_state.
  rewrite (bump_context_anonymous user_name _ Hanon).
  split; [|done]. unfold get_conversation_history.
  cbn [truthy conversation_history]. rewrite filter_user_snoc.
  assert (speaker user_name = "Unknown") as ->.
  { unfold speaker. destruct user_name as [u|]; [|done].
    simpl in Hanon. by rewrite Hanon. }
  cbn [t_user]. by rewrite decide_True.
Qed.

Lemma X6_anonymous_turns_go_to_unknown_witness :
  truthy_opt (Some "") = false
  ∧ get_conversation_history (Some "Unknown")
      (get_response (Build_Env "12:00" 0) "hello" (Some "")
                    (Manager [] ∅)).2
    = [Turn "Unknown" "hello" "12:00"].
Proof.
  split; [reflexivity|].
  exact (proj1 (X6_anonymous_turns_go_to_unknown (Build_Env "12:00" 0)
                  "hello" (Some "") (Manager [] ∅) eq_refl)).
Defined.

Lemma filter_user_cleared (u : string) (l : list turn) :
  filter (λ msg, t_user msg = u) (filter (λ msg, t_user msg ≠ u) l) = [].
Proof.
  induction l as [|t l IH]; [done|].
  destruct (decide (t_user t = u)) as [Hu|Hu].
  - rewrite (filter_cons_False (λ msg, t_user msg ≠ u)); [done|].
    by intros ?.
  - rewrite (filter_cons_True (λ msg, t_user msg ≠ u)) by done.
    by rewrite filter_cons_False.
Qed.

Lemma filter_user_kept (u v : string) (l : list turn) :
  v ≠ u →
  filter (λ msg, t_user msg = v) (filter (λ msg, t_user msg ≠ u) l)
  = filter (λ msg, t_user msg = v) l.
Proof.
  intros Hne. induction l as [|t l IH]; [done|].
  destruct (decide (t_user t = u)) as [Hu|Hu].
  - rewrite (filter_cons_False (λ msg, t_user msg ≠ u)) by (by intros ?).
    rewrite IH. rewrite (filter_cons_False (λ msg, t_user msg = v));
      [done|congruence].
  - rewrite (filter_cons_True (λ msg, t_user msg ≠ u)) by done.
    destruct (decide (t_user t = v)) as [Hv|Hv].
    + rewrite !(filter_cons_True (λ msg, t_user msg = v)) by done.
      by rewrite IH.
    + rewrite !(filter_cons_False (λ msg, t_user msg = v)) by done.
      done.
Qed.

(** X7. [clear_history] for a named user leaves that user with an empty
    history and with the statistics of an unknown user, and leaves the
    history and the statistics of every other named user as they were;
    without a name, or with an empty one, it empties the whole log and
    every counter. *)
Theorem X7_clear_history_scope (user_name : option string)
    (s : ChatbotManager) :
  (∀ u, user_name = Some u → truthy u = true →
        get_conversation_history (Some u) (clear_history user_name s) = []
        ∧ get_user_stats u (clear_history user_name s) = Context 0 []
        ∧ (∀ v, truthy v = true → v ≠ u →
                get_conversation_history (Some v) (clear_history user_name s)
                = get_conversation_history (Some v) s
                ∧ get_user_stats v (clear_history user_name s)
                  = get_user_stats v s))
  ∧ (truthy_opt user_name = false →
     clear_history user_name s = Manager [] ∅).
Proof.
  split.
  - intros u -> Hu. unfold clear_history, get_conversation_history,
      get_user_stats. rewrite Hu. cbn [conversation_history session_context].
    split; [apply filter_user_cleared|]. split.
    + by rewrite lookup_delete_eq.
    + intros v Hv Hne. rewrite Hv. split.
      * by apply filter_user_kept.
      * by rewrite lookup_delete_ne.
  - unfold clear_history. destruct user_name as [u|]; [|done].
    simpl. by intros ->.
Qed.

Lemma X7_clear_history_scope_witness :
  truthy "ada" = true
  ∧ get_conversation_history (Some "ada")
      (clear_history (Some "ada")
         (Manager [Turn "ada" "hello" "12:00"; Turn "bob" "hi" "12:01"]
                  {["ada" := Context 1 []]})) = []
  ∧ get_conversation_history (Some "bob")
      (clear_history (Some "ada")
         (Manager [Turn "ada" "hello" "12:00"; Turn "bob" "hi" "12:01"]
                  {["ada" := Context 1 []]}))
    = [Turn "bob" "hi" "12:01"].
Proof.
  split; [reflexivity|].
  destruct (proj1 (X7_clear_history_scope (Some "ada")
              (Manager [Turn "ada" "hello" "12:00"; Turn "bob" "hi" "12:01"]
                       {["ada" := Context 1 []]})) "ada" eq_refl eq_refl)
    as (H1 & _ & H3).
  split; [exact H1|].
  exact (proj1 (H3 "bob" eq_refl ltac:(discriminate))).
Defined.

(** X8. The personal "Hello <name>!" is given once: a greeting of a named
    user who already has a turn counted gets a bare canned greeting, and
    after [clear_history] for that user the next greeting is personal
    again. *)
Theorem X8_personal_greeting_once (e : Env) (message u : string)
    (s : ChatbotManager) :
  truthy u = true →
  truthy (strip (lower message)) = true →
  _categorize_message (strip (lower message)) = "greetings" →
  (0 < turns_of u s →
   ∃ base, base ∈ canned "greetings"
           ∧ (get_response e message (Some u) s).1 = Some base)
  ∧ ∃ base, base ∈ canned "greetings"
            ∧ (get_response e message (Some u)
                            (clear_history (Some u) s)).1
              = Some ("Hello " +:+ u +:+ "! " +:+ base).
Proof.
  intros Hu Hmsg Hcat.
  assert (Hshape : ∀ s0, ∃ base,
             base ∈ canned "greetings"
             ∧ (get_response e message (Some u) s0).1
               = Some (if turns_of u s0 =? 0
                       then "Hello " +:+ u +:+ "! " +:+ base else base)).
  { intros s0. unfold get_response, get_response_with.
    rewrite Hmsg, Hcat. cbn [negb]. fold (canned "greetings").
    destruct (random_choice_member e (canned "greetings"))
      as (base & -> & Hbase); [by vm_compute|].
    exists base. split; [done|]. cbn [fst]. f_equal.
    rewrite Hu. cbn [andb String.eqb Ascii.eqb Bool.eqb].
    rewrite (bumped_count_is_one u _ Hu). unfold turns_of, get_user_stats.
    by destruct (_ =? 0). }
  split.
  - intros Hpos. destruct (Hshape s) as (base & Hbase & Hr).
    exists base. split; [done|]. rewrite Hr.
    by destruct (Z.eqb_spec (turns_of u s) 0); [lia|].
  - destruct (Hshape (clear_history (Some u) s)) as (base & Hbase & Hr).
    exists base. split; [done|]. rewrite Hr.
    unfold turns_of, get_user_stats, clear_history. rewrite Hu.
    cbn [session_context]. by rewrite lookup_delete_eq.
Qed.

Lemma X8_personal_greeting_once_witness :
  truthy "ada" = true
  ∧ truthy (strip (lower "Hello")) = true
  ∧ _categorize_message (strip (lower "Hello")) = "greetings"
  ∧ ∃ base, base ∈ canned "greetings"
            ∧ (get_response (Build_Env "12:00" 0) "Hello" (Some "ada")
                 (clear_history (Some "ada")
                    (Manager [] {["ada" := Context 3 []]}))).1
              = Some ("Hello " +:+ "ada" +:+ "! " +:+ base).
Proof.
  split; [reflexivity|]. split; [reflexivity|]. split; [reflexivity|].
  exact (proj2 (X8_personal_greeting_once (Build_Env "12:00" 0) "Hello" "ada"
                  (Manager [] {["ada" := Context 3 []]})
                  eq_refl eq_refl eq_refl)).
Defined.

End ChatbotExtra.



(* ===================================================================== *)
(** * Further properties of the identity store and of the video thread    *)
(* ===================================================================== *)

Module FaceExtra.
Import PyStr FaceRecognition FaceSpec.

Ltac step :=
  unfold mbind, M_bind, mret, M_ret, bind, ret, raise, try_except,
    try_finally, or_raise, mutex_lock, mutex_unlock, read_known_encodings,
    read_known_names, write_known_encodings, write_known_names,
    append_known_encoding, append_known_name, pop_known_names,
    pop_known_encodings, modify_self, get_self, os_path_exists, pickle_load,
    os_rename_to_backup, open_wb_dump, datetime_now, video_capture, cap_read,
    cap_release, with_self, with_disk, with_camera, with_event,
    put_known_encodings, put_known_names, put_face_locations,
    put_face_encodings, put_face_names, put_mutex_held, put_db_file,
    put_backup_file in *;
  cbn [self disk camera trace known_encodings known_names face_locations
       face_encodings face_names mutex_held db_file backup_file disk_fault
       clock feed is_open default from_option p_encodings p_names
       p_timestamp final returned] in *.

Ltac finish := eexists; split; [reflexivity|]; cbn; repeat split; done.

(** ** The database file and its backup *)

(** X9. A save that goes through leaves the pickled store at the database
    path and, when a file was there before, that file as the backup, in
    place of any older backup; with no file before, the backup is left as
    it was. *)
Theorem X9_save_rotates_backup `{Vision} (w : World) :
  mutex_held (self w) = false →
  disk_fault (disk w) = NoFault →
  ∃ w',
    save_database w = Returned tt w'
    ∧ self w' = self w
    ∧ db_file (disk w') = Some (Pickle (snapshot w))
    ∧ backup_file (disk w')
      = match db_file (disk w) with
        | Some f => Some f
        | None => backup_file (disk w)
        end.
Proof.
  destruct w as [[ke kn fl fe fn mh] [db bk flt clk] cam tr].
  unfold save_database, snapshot. step. intros -> ->.
  destruct db as [f|]; cbn; step; finish.
Qed.

Lemma X9_save_rotates_backup_witness :
  let w := @world_of LineVision [1%Q] ["ada"] (Some Corrupt) NoFault [] in
  mutex_held (self w) = false
  ∧ disk_fault (disk w) = NoFault
  ∧ ∃ w',
      save_database w = Returned tt w'
      ∧ self w' = self w
      ∧ db_file (disk w') = Some (Pickle (snapshot w))
      ∧ backup_file (disk w') = Some Corrupt.
Proof.
  intros w. split; [reflexivity|]. split; [reflexivity|].
  exact (@X9_save_rotates_backup LineVision w eq_refl eq_refl).
Defined.

(** X10. When a database file exists and the write fails after it has
    been renamed (the new file cannot be opened, or the dump breaks off),
    [save_database] still returns normally; the old file is then only in
    the backup, which [load_database] never reads: a load that follows
    returns with an empty store. *)
Theorem X10_failed_write_loses_the_database `{Vision} (w : World)
    (f : file) :
  mutex_held (self w) = false →
  db_file (disk w) = Some f →
  disk_fault (disk w) = OpenFails ∨ disk_fault (disk w) = DumpFails →
  ∃ w1 w2,
    save_database w = Returned tt w1
    ∧ self w1 = self w
    ∧ backup_file (disk w1) = Some f
    ∧ load_database w1 = Returned tt w2
    ∧ known_names (self w2) = []
    ∧ known_encodings (self w2) = [].
Proof.
  destruct w as [[ke kn fl fe fn mh] [db bk flt clk] cam tr].
  unfold save_database, load_database. step. intros -> -> [-> | ->];
    cbn; step; (eexists _, _; repeat split; reflexivity).
Qed.

Lemma X10_failed_write_loses_the_database_witness :
  let f := @Pickle LineVision
             (@Pickled LineVision (Some [1%Q]) (Some ["ada"]) None) in
  let w := @world_of LineVision [1%Q; 2%Q] ["ada"; "bob"] (Some f)
             DumpFails [] in
  mutex_held (self w) = false
  ∧ db_file (disk w) = Some f
  ∧ ∃ w1 w2,
      save_database w = Returned tt w1
      ∧ self w1 = self w
      ∧ backup_file (disk w1) = Some f
      ∧ load_database w1 = Returned tt w2
      ∧ known_names (self w2) = []
      ∧ known_encodings (self w2) = [].
Proof.
  intros f w. split; [reflexivity|]. split; [reflexivity|].
  exact (@X10_failed_write_loses_the_database LineVision w f eq_refl eq_refl
           (or_intror eq_refl)).
Defined.

(** X11. The constructor never fails, whatever the attributes held
    before: it returns with a free mutex, empty face lists, the disk as it
    was, and as store what the database file holds (nothing when the file
    is missing or corrupt). *)
Theorem X11_constructor_loads_or_starts_empty `{Vision} (w : World) :
  ∃ w',
    init w = Returned tt w'
    ∧ known_names (self w') = stored_names (db_file (disk w))
    ∧ known_encodings (self w') = stored_encodings (db_file (disk w))
    ∧ face_locations (self w') = []
    ∧ face_encodings (self w') = []
    ∧ face_names (self w') = []
    ∧ mutex_held (self w') = false
    ∧ disk w' = disk w.
Proof.
  destruct w as [[ke kn fl fe fn mh] [db bk flt clk] cam tr].
  unfold init, load_database, stored_names, stored_encodings. step.
  destruct db as [[|d]|]; cbn; step; finish.
Qed.

(** ** [identify_face] on any store *)

Lemma untouched_refl `{Vision} (w : World) : untouched w w.
Proof. by unfold untouched. Qed.

Lemma untouched_trans `{Vision} (w1 w2 w3 : World) :
  untouched w1 w2 → untouched w2 w3 → untouched w1 w3.
Proof.
  unfold untouched. intros (?&?&?&?&?) (?&?&?&?&?).
  repeat split; congruence.
Qed.

Lemma match_face_untouched `{Vision} (q : Sig) (w : World) :
  untouched w (final (match_face q w)).
Proof.
  destruct w as [[ke kn fl fe fn mh] d cam tr].
  unfold match_face, untouched. step.
  destruct (bool_decide _); step; [|done].
  destruct (0 <? length ke)%nat; step; [|done].
  destruct (np_argmin _) as [i|]; step; [|done].
  destruct (compare_faces _ _ _ !! i) as [m|]; step; [|done].
  destruct (face_distance ke q !! i) as [d0|]; step; [|done].
  destruct (m && Qltb d0 _); step; [|done].
  destruct (kn !! i); step; done.
Qed.

Lemma match_faces_untouched `{Vision} (encs : list Sig) (w : World) :
  untouched w (final (for_each encs match_face w)).
Proof.
  revert w. induction encs as [|q encs IH]; intros w.
  - apply untouched_refl.
  - cbn [for_each]. unfold mbind, M_bind, bind.
    pose proof (match_face_untouched q w) as Hq.
    destruct (match_face q w) as [[] w1|w1|w1]; cbn [final] in Hq |- *;
      [|done..].
    eapply untouched_trans; [exact Hq|apply IH].
Qed.

Lemma identify_face_untouched `{Vision} (frame : option Frame) (w : World) :
  untouched w (final (identify_face frame w)).
Proof.
  destruct frame as [frame|]; [|apply untouched_refl]. unfold identify_face.
  destruct (frame_size frame =? 0)%nat; [apply untouched_refl|].
  destruct w as [[ke kn fl fe fn mh] d cam tr]. step.
  destruct (fr_face_locations _) as [|l0 ls]; [by unfold untouched|].
  step.
  match goal with |- context [for_each ?l match_face ?x] =>
    pose proof (match_faces_untouched l x) as Hrun;
    destruct (for_each l match_face x) as [[] w1|w1|w1]
  end; cbn [final] in Hrun |- *; [|done..].
  step. destruct (face_names (self w1)) as [|[n|] ns]; step;
    [done| |done].
  destruct (truthy n); done.
Qed.

(** X12. [identify_face] only reads the store: whatever the frame and
    whatever its outcome (even an exception), the two lists, the mutex,
    the disk and the camera are as before.  For a missing frame or a frame
    of size 0 it answers none and changes nothing at all; for a frame
    without a face it answers none and keeps the face names of the frame
    before. *)
Theorem X12_identify_face_reads_only `{Vision} (w : World) :
  (∀ frame, untouched w (final (identify_face frame w)))
  ∧ identify_face None w = Returned None w
  ∧ (∀ frame, frame_size frame = 0%nat →
              identify_face (Some frame) w = Returned None w)
  ∧ (∀ frame,
       frame_size frame ≠ 0%nat →
       fr_face_locations (cv2_bgr2rgb (cv2_resize_half frame)) = [] →
       ∃ w', identify_face (Some frame) w = Returned None w'
             ∧ face_locations (self w') = []
             ∧ face_names (self w') = face_names (self w)).
Proof.
  split; [|split; [done|split]].
  - intros frame. apply identify_face_untouched.
  - intros frame Hsize. unfold identify_face. by rewrite Hsize.
  - intros frame Hsize Hlocs. unfold identify_face.
    destruct (Nat.eqb_spec (frame_size frame) 0) as [?|_]; [done|].
    destruct w as [[ke kn fl fe fn mh] d cam tr]. step.
    rewrite Hlocs. finish.
Qed.

Lemma X12_identify_face_reads_only_witness :
  let w := @world_of LineVision [0%Q] ["ada"] None NoFault [] in
  let blank : @Frame LineVision := [] in
  frame_size blank = 0%nat
  ∧ identify_face (Some blank) w = Returned None w.
Proof.
  intros w blank. split; [reflexivity|].
  exact (proj1 (proj2 (proj2 (@X12_identify_face_reads_only LineVision w)))
           blank eq_refl).
Defined.

(** On a store that has a name for every signature, [identify_face]
    returns, with the answer [identified] computes from the store. *)
Lemma identify_face_returns `{Vision} (frame : Frame) (w : World) :
  (length (known_encodings (self w)) ≤ length (known_names (self w)))%nat →
  ∃ w',
    identify_face (Some frame) w
    = Returned (identified (known_encodings (self w))
                           (known_names (self w)) frame) w'
    ∧ untouched w w'.
Proof.
  intros Hlen.
  pose proof (identify_face_untouched (Some frame) w) as Hsame.
  unfold identified.
  destruct (Nat.eqb_spec (frame_size frame) 0) as [Hz|Hnz].
  { exists w. unfold identify_face.
    rewrite (proj2 (Nat.eqb_eq _ _) Hz). split; [done|apply untouched_refl]. }
  destruct (fr_face_locations (cv2_bgr2rgb (cv2_resize_half frame)))
    as [|l0 ls] eqn:Hlocs.
  { revert Hsame. unfold identify_face.
    rewrite (proj2 (Nat.eqb_neq _ _) Hnz).
    destruct w as [[ke kn fl fe fn mh] d cam tr]. step. rewrite Hlocs.
    intros Hsame. eexists. split; [reflexivity|exact Hsame]. }
  destruct (fr_face_encodings _ (l0 :: ls)) as [|q rest] eqn:Hencs.
  { revert Hsame. unfold identify_face.
    rewrite (proj2 (Nat.eqb_neq _ _) Hnz).
    destruct w as [[ke kn fl fe fn mh] d cam tr]. step. rewrite Hlocs.
    step. rewrite Hencs. cbn [for_each]. step.
    intros Hsame. eexists. split; [reflexivity|exact Hsame]. }
  destruct (identify_face_spec frame q rest w Hlen Hnz) as (w' & Hrun & _).
  - by rewrite Hlocs.
  - by rewrite Hlocs.
  - rewrite Hrun in Hsame. exists w'. done.
Qed.

(** X13. On a store with fewer names than signatures, a face whose
    nearest stored signature lies below the threshold at a position that
    has no name makes [identify_face] raise (the [IndexError] of
    [self.known_names[best_match_index]]), which it does not catch. *)
Theorem X13_identify_face_raises_without_name `{Vision} (frame : Frame)
    (q : Sig) (rest : list Sig) (i : nat) (d : Q) (w : World) :
  frame_size frame ≠ 0%nat →
  fr_face_locations (cv2_bgr2rgb (cv2_resize_half frame)) ≠ [] →
  fr_face_encodings (cv2_bgr2rgb (cv2_resize_half frame))
    (fr_face_locations (cv2_bgr2rgb (cv2_resize_half frame))) = q :: rest →
  nearest (known_encodings (self w)) q i d →
  (d < recognition_threshold)%Q →
  (length (known_names (self w)) ≤ i)%nat →
  ∃ w', identify_face (Some frame) w = Raised w'.
Proof.
  intros Hsize Hlocs Hencs Hnear Hthr Hshort.
  assert (Hface : ∀ w0 : World,
            known_encodings (self w0) = known_encodings (self w) →
            known_names (self w0) = known_names (self w) →
            ∃ w1, match_face q w0 = Raised w1).
  { intros w0 He Hn.
    destruct w0 as [[ke kn fl fe fn mh] dk cam tr]. cbn in He, Hn.
    rewrite <- He in Hnear. rewrite <- Hn in Hshort. clear He Hn.
    assert (Hne : face_distance ke q ≠ []).
    { destruct Hnear as [Hd _]. intros Hnil. by rewrite Hnil in Hd. }
    destruct (np_argmin_first _ Hne) as (i' & d' & Harg & Hd' & Hle' & Hlt').
    destruct (nearest_unique ke q i d i' d' Hnear) as [<- <-]; [done|].
    apply Qltb_lt in Hthr.
    unfold match_face. step.
    rewrite bool_decide_true.
    2:{ eapply list_elem_of_lookup_2.
        rewrite (compare_faces_lookup ke q _ i d Hd').
        by rewrite (threshold_implies_match d Hthr). }
    step.
    assert ((0 <? length ke)%nat = true) as ->
      by (destruct ke; [done|reflexivity]).
    step. rewrite Harg. step.
    rewrite (compare_faces_lookup ke q _ i d Hd'). step. rewrite Hd'. step.
    rewrite (threshold_implies_match d Hthr), Hthr. cbn [andb]. step.
    rewrite (lookup_ge_None_2 kn i) by lia. by eexists. }
  unfold identify_face.
  rewrite (proj2 (Nat.eqb_neq _ _) Hsize).
  destruct w as [[ke kn fl fe fn mh] dk cam tr]. step.
  destruct (fr_face_locations _) as [|l0 ls] eqn:Hl; [done|].
  step. rewrite Hencs. cbn [for_each]. step.
  match goal with |- context [match_face q ?x] =>
    destruct (Hface x eq_refl eq_refl) as [w1 ->]
  end.
  by eexists.
Qed.

Lemma X13_identify_face_raises_without_name_witness :
  let w := @world_of LineVision [0%Q] [] None NoFault [] in
  let frame : @Frame LineVision := [0%Q] in
  frame_size frame ≠ 0%nat
  ∧ (length (known_names (self w)) ≤ 0)%nat
  ∧ ∃ w', identify_face (Some frame) w = Raised w'.
Proof.
  intros w frame.
  assert (Hsize : frame_size frame ≠ 0%nat) by discriminate.
  assert (Hlocs : fr_face_locations (cv2_bgr2rgb (cv2_resize_half frame))
                  ≠ []) by discriminate.
  assert (Hnear : nearest (known_encodings (self w)) (0%Q : @Sig LineVision)
                          0 0%Q).
  { split; [reflexivity|]. split.
    - intros y ->%list_elem_of_singleton. by vm_compute.
    - intros j y Hj. lia. }
  assert (Hthr : (0 < recognition_threshold)%Q) by reflexivity.
  assert (Hshort : (length (known_names (self w)) ≤ 0)%nat)
    by (cbn; lia).
  split; [exact Hsize|]. split; [exact Hshort|].
  exact (@X13_identify_face_raises_without_name LineVision frame 0%Q [] 0%nat
           0%Q w Hsize Hlocs eq_refl Hnear Hthr Hshort).
Defined.

(** ** The match of [identify_face] *)

(** X24. For a store with at least as many names as signatures and a
    frame in which the detector finds a face with signature [q] first, the
    match computes the distance from [q] to every stored signature, takes
    the minimum (at its first position), and answers with the name stored
    at that position if and only if the minimum is below the threshold 0.6
    and that name is not the empty string; otherwise, and for an empty
    store, it answers none. *)
Theorem X24_match_nearest_below_threshold `{Vision} (frame : Frame)
    (q : Sig) (rest : list Sig) (w : World) :
  (length (known_encodings (self w)) ≤ length (known_names (self w)))%nat →
  frame_size frame ≠ 0%nat →
  fr_face_locations (cv2_bgr2rgb (cv2_resize_half frame)) ≠ [] →
  fr_face_encodings (cv2_bgr2rgb (cv2_resize_half frame))
    (fr_face_locations (cv2_bgr2rgb (cv2_resize_half frame))) = q :: rest →
  ∃ r w',
    identify_face (Some frame) w = Returned r w'
    ∧ (∀ name,
         r = Some name
         ↔ ∃ i d, nearest (known_encodings (self w)) q i d
                  ∧ (d < recognition_threshold)%Q
                  ∧ known_names (self w) !! i = Some name
                  ∧ name ≠ "")
    ∧ (known_encodings (self w) = [] → r = None).
Proof.
  intros Hlen Hsize Hlocs Hencs.
  destruct (identify_face_spec frame q rest w Hlen Hsize Hlocs Hencs)
    as (w' & Hrun & _).
  eexists _, w'. split; [exact Hrun|]. split.
  - intros name. split.
    + destruct (nearest_name _ _ q) as [n|] eqn:Hn; [|done].
      destruct (truthy n) eqn:Ht; [|done]. intros [= ->].
      apply nearest_name_iff in Hn as (i & d & H1 & H2 & H3).
      exists i, d. split; [done|]. split; [done|]. split; [done|].
      by intros ->.
    + intros (i & d & H1 & H2 & H3 & H4).
      assert (Hn : nearest_name (known_encodings (self w))
                     (known_names (self w)) q = Some name)
        by (apply nearest_name_iff; eauto).
      rewrite Hn. by destruct name.
  - intros Hempty. rewrite Hempty. done.
Qed.

(** A face half way between two stored signatures: both are at distance
    1/2, below the threshold, and the first one names the face. *)
Lemma X24_match_nearest_below_threshold_witness :
  let w := @world_of LineVision [0%Q; 1%Q] ["ada"; "bob"] None NoFault [] in
  let frame : @Frame LineVision := [(1 # 2)%Q] in
  (length (known_encodings (self w)) ≤ length (known_names (self w)))%nat
  ∧ frame_size frame ≠ 0%nat
  ∧ identify_face (Some frame) w
    = Returned (Some "ada") (final (identify_face (Some frame) w))
  ∧ ∃ r w',
      identify_face (Some frame) w = Returned r w'
      ∧ (∀ name,
           r = Some name
           ↔ ∃ i d, @nearest LineVision [0%Q; 1%Q] (1 # 2)%Q i d
                    ∧ (d < recognition_threshold)%Q
                    ∧ ["ada"; "bob"] !! i = Some name
                    ∧ name ≠ "")
      ∧ (known_encodings (self w) = [] → r = None).
Proof.
  intros w frame.
  assert (Hlen : (length (known_encodings (self w))
                  ≤ length (known_names (self w)))%nat) by (simpl; lia).
  assert (Hsize : frame_size frame ≠ 0%nat) by discriminate.
  assert (Hlocs : @fr_face_locations LineVision
                    (cv2_bgr2rgb (cv2_resize_half frame)) ≠ [])
    by discriminate.
  split; [exact Hlen|]. split; [exact Hsize|]. split; [reflexivity|].
  exact (@X24_match_nearest_below_threshold LineVision frame (1 # 2)%Q [] w
           Hlen Hsize Hlocs eq_refl).
Defined.

(** ** Registration followed by identification *)

Lemma nearest_appended `{Vision} (known : list Sig) (e : Sig) :
  (∀ k, k ∈ known → (fr_distance e e < fr_distance k e)%Q) →
  nearest (known ++ [e]) e (length known) (fr_distance e e).
Proof.
  intros Hfar. unfold nearest, face_distance. rewrite map_app. cbn [map].
  split; [|split].
  - by rewrite lookup_app_r, length_map, Nat.sub_diag by (by rewrite length_map).
  - intros y [Hy| ->%list_elem_of_singleton]%elem_of_app; [|apply Qle_refl].
    apply list_elem_of_In, in_map_iff in Hy as (k & <- & Hk%list_elem_of_In).
    by apply Qlt_le_weak, Hfar.
  - intros j y Hj Hy. rewrite lookup_app_l in Hy by (by rewrite length_map).
    apply list_elem_of_lookup_2, list_elem_of_In, in_map_iff in Hy
      as (k & <- & Hk%list_elem_of_In).
    by apply Hfar.
Qed.

(** X14. After a registration that gathered a candidate, no library call
    raising on a frame, on a store with parallel lists, a frame whose first
    face has the signature that was kept is identified as the new name,
    provided the name is not empty and the signature is nearer to itself,
    and below the threshold, than to every signature stored before. *)
Theorem X14_registered_face_is_identified `{Vision} (name : string)
    (n : nat) (w : World) :
  parallel (self w) →
  mutex_held (self w) = false →
  attempts_raise n (feed (camera w)) = false →
  candidates n (feed (camera w)) ≠ [] →
  truthy name = true →
  ∃ e w',
    e ∈ candidates n (feed (camera w))
    ∧ register_new_user name n w = Returned true w'
    ∧ ∀ frame rest,
        frame_size frame ≠ 0%nat →
        fr_face_locations (cv2_bgr2rgb (cv2_resize_half frame)) ≠ [] →
        fr_face_encodings (cv2_bgr2rgb (cv2_resize_half frame))
          (fr_face_locations (cv2_bgr2rgb (cv2_resize_half frame)))
        = e :: rest →
        (fr_distance e e < recognition_threshold)%Q →
        (∀ k, k ∈ known_encodings (self w) →
              (fr_distance e e < fr_distance k e)%Q) →
        ∃ w'', identify_face (Some frame) w' = Returned (Some name) w''.
Proof.
  intros Hpar Hfree Hquiet Hne Hname.
  destruct (register_new_user_some name n w Hfree Hquiet Hne)
    as (i & e & w' & Hi & _ & _ & Hreg & He & Hn & _).
  exists e, w'. split; [by eapply list_elem_of_lookup_2|]. split; [done|].
  intros frame rest Hsize Hlocs Hencs Hthr Hfar.
  assert (Hlen : (length (known_encodings (self w'))
                  ≤ length (known_names (self w')))%nat).
  { rewrite He, Hn, !length_app. unfold parallel in Hpar. simpl. lia. }
  destruct (identify_face_spec frame e rest w' Hlen Hsize Hlocs Hencs)
    as (w'' & Hrun & _).
  exists w''. rewrite Hrun. f_equal.
  assert (Hnm : nearest_name (known_encodings (self w'))
                  (known_names (self w')) e = Some name).
  { apply nearest_name_iff.
    exists (length (known_encodings (self w))), (fr_distance e e).
    rewrite He, Hn. split; [by apply nearest_appended|]. split; [done|].
    unfold parallel in Hpar. rewrite <- Hpar.
    by rewrite lookup_app_r, Nat.sub_diag. }
  by rewrite Hnm, Hname.
Qed.

(** A face at 3 registered as "bob" next to "ada" at 0, then shown again. *)
Lemma X14_registered_face_is_identified_witness :
  let w := @world_of LineVision [0%Q] ["ada"] None NoFault [Some [3%Q]] in
  let frame : @Frame LineVision := [3%Q] in
  parallel (self w)
  ∧ mutex_held (self w) = false
  ∧ attempts_raise 10 (feed (camera w)) = false
  ∧ candidates 10 (feed (camera w)) ≠ []
  ∧ truthy "bob" = true
  ∧ frame_size frame ≠ 0%nat
  ∧ (@fr_distance LineVision 3%Q 3%Q < recognition_threshold)%Q
  ∧ (∀ k, k ∈ known_encodings (self w) →
          (@fr_distance LineVision 3%Q 3%Q < fr_distance k 3%Q)%Q)
  ∧ ∃ w' w'',
      register_new_user "bob" 10 w = Returned true w'
      ∧ identify_face (Some frame) w' = Returned (Some "bob") w''.
Proof.
  intros w frame.
  assert (Hpar : parallel (self w)) by reflexivity.
  assert (Hfree : mutex_held (self w) = false) by reflexivity.
  assert (Hquiet : attempts_raise 10 (feed (camera w)) = false)
    by reflexivity.
  assert (Hne : candidates 10 (feed (camera w)) ≠ [])
    by (vm_compute; discriminate).
  assert (Hname : truthy "bob" = true) by reflexivity.
  assert (Hsize : frame_size frame ≠ 0%nat) by discriminate.
  assert (Hlocs : @fr_face_locations LineVision
                    (cv2_bgr2rgb (cv2_resize_half frame)) ≠ [])
    by discriminate.
  assert (Hthr : (@fr_distance LineVision 3%Q 3%Q < recognition_threshold)%Q)
    by (vm_compute; reflexivity).
  assert (Hfar : ∀ k, k ∈ known_encodings (self w) →
                      (@fr_distance LineVision 3%Q 3%Q < fr_distance k 3%Q)%Q).
  { intros k Hk. apply list_elem_of_singleton in Hk. rewrite Hk.
    vm_compute. reflexivity. }
  split; [exact Hpar|]. split; [exact Hfree|]. split; [exact Hquiet|].
  split; [exact Hne|]. split; [exact Hname|]. split; [exact Hsize|].
  split; [exact Hthr|]. split; [exact Hfar|].
  destruct (@X14_registered_face_is_identified LineVision "bob" 10 w
              Hpar Hfree Hquiet Hne Hname) as (e & w' & He & Hreg & Hid).
  assert (Hkept : e = 3%Q) by (apply list_elem_of_singleton; exact He).
  rewrite Hkept in Hid.
  destruct (Hid frame [] Hsize Hlocs eq_refl Hthr Hfar) as (w'' & Hrun).
  exact (ex_intro _ w' (ex_intro _ w'' (conj Hreg Hrun))).
Defined.

(** ** [remove_user] *)

Lemma list_index_first (name : string) (l : list string) (i : nat) :
  list_index name l = Some i →
  l !! i = Some name ∧ ∀ j, (j < i)%nat → l !! j ≠ Some name.
Proof.
  revert i. induction l as [|y r IH]; intros i; [done|]. simpl.
  destruct (String.eqb_spec y name) as [->|Hne].
  - intros [= <-]. split; [done|]. intros j Hj. lia.
  - destruct (list_index name r) as [i0|] eqn:E; [|done].
    intros [= <-]. destruct (IH i0 eq_refl) as [Hi Hfirst].
    split; [done|]. intros [|j] Hj; simpl.
    + congruence.
    + apply Hfirst. lia.
Qed.

(** X15. [remove_user] comes back only for a name that is not stored: it
    then answers false and changes neither the store nor the disk.  For a
    stored name (lists parallel, mutex free) it pops the first record of
    that name from both lists and then never returns: [save_database] asks
    for the mutex that [remove_user] still holds.  The mutex stays held
    and the disk is not written. *)
Theorem X15_remove_user_never_completes `{Vision} (name : string)
    (w : World) :
  mutex_held (self w) = false →
  parallel (self w) →
  (name ∉ known_names (self w) →
   ∃ w', remove_user name w = Returned false w'
         ∧ self w' = self w ∧ disk w' = disk w)
  ∧ (name ∈ known_names (self w) →
     ∃ i w',
       known_names (self w) !! i = Some name
       ∧ (∀ j, (j < i)%nat → known_names (self w) !! j ≠ Some name)
       ∧ remove_user name w = Blocked w'
       ∧ mutex_held (self w') = true
       ∧ known_names (self w') = delete i (known_names (self w))
       ∧ known_encodings (self w') = delete i (known_encodings (self w))
       ∧ disk w' = disk w).
Proof.
  intros Hfree Hpar. split; [by apply remove_user_absent|].
  intros Hin.
  destruct (list_index_spec name _ Hin) as (i & Hidx & _).
  destruct (list_index_first name _ i Hidx) as [Hi Hfirst].
  exists i.
  pose proof (lookup_lt_Some _ _ _ Hi) as Hlt.
  destruct w as [[ke kn fl fe fn mh] d cam tr].
  unfold parallel in Hpar. cbn in *. subst mh.
  assert (Hlt' : (i < length ke)%nat) by lia.
  apply Nat.ltb_lt in Hlt, Hlt'.
  unfold remove_user. step. rewrite bool_decide_true by done.
  cbn -[save_database Nat.ltb]. rewrite Hidx.
  cbn -[save_database Nat.ltb]. unfold list_pop. rewrite Hlt.
  cbn -[save_database Nat.ltb]. rewrite Hlt'.
  cbn -[save_database Nat.ltb].
  rewrite save_database_blocks by done.
  eexists. split; [done|]. split; [done|]. split; [reflexivity|]. done.
Qed.

Lemma X15_remove_user_never_completes_witness :
  let w := @world_of LineVision [0%Q; 1%Q] ["ada"; "bob"] None NoFault [] in
  mutex_held (self w) = false
  ∧ parallel (self w)
  ∧ "bob" ∈ known_names (self w)
  ∧ ∃ i w',
      known_names (self w) !! i = Some "bob"
      ∧ (∀ j, (j < i)%nat → known_names (self w) !! j ≠ Some "bob")
      ∧ remove_user "bob" w = Blocked w'
      ∧ mutex_held (self w') = true
      ∧ known_names (self w') = delete i (known_names (self w))
      ∧ known_encodings (self w') = delete i (known_encodings (self w))
      ∧ disk w' = disk w.
Proof.
  intros w.
  assert (Hpar : parallel (self w)) by reflexivity.
  assert (Hin : "bob" ∈ known_names (self w))
    by (apply list_elem_of_further, list_elem_of_here).
  split; [reflexivity|]. split; [exact Hpar|]. split; [exact Hin|].
  exact (proj2 (@X15_remove_user_never_completes LineVision "bob" w
                  eq_refl Hpar) Hin).
Defined.

(** ** The camera during a registration *)

(** X16. With the mutex free, [register_new_user] always returns: an
    exception raised by a library call on a frame is caught and answered
    with false, and nothing blocks.  The answer is true exactly when a
    candidate was gathered and no frame raised.  When no frame raises, all
    [max_attempts] reads of the camera are made, also after a usable frame
    has been seen; when one does, the reads stop with the first such frame.
    In every case the capture device is left released. *)
Theorem X16_register_reads_until_a_frame_raises `{Vision} (name : string)
    (n : nat) (w : World) :
  mutex_held (self w) = false →
  ∃ b w',
    register_new_user name n w = Returned b w'
    ∧ (b = true ↔ candidates n (feed (camera w)) ≠ []
                  ∧ attempts_raise n (feed (camera w)) = false)
    ∧ is_open (camera w') = false
    ∧ (attempts_raise n (feed (camera w)) = false →
       feed (camera w') = drop n (feed (camera w)))
    ∧ (attempts_raise n (feed (camera w)) = true →
       ∃ k frame,
         (k < n)%nat
         ∧ feed (camera w) !! k = Some (Some frame)
         ∧ fr_raises frame = true
         ∧ (∀ j fr, (j < k)%nat → feed (camera w) !! j = Some fr →
                    attempt_raises fr = false)
         ∧ feed (camera w') = drop (S k) (feed (camera w))).
Proof.
  intros Hfree.
  destruct (attempts_raise n (feed (camera w))) eqn:Hr.
  - destruct (register_new_user_raised name n w Hr)
      as (k & frame & w' & Hk & Hat & Hfr & Hbefore & Hreg & _ & _ & Hfeed
          & Hopen).
    exists false, w'. split; [done|]. split; [|split; [done|split; [done|]]].
    + split; [done|]. by intros [_ ?].
    + intros _. by exists k, frame.
  - destruct (candidates n (feed (camera w))) as [|c cs] eqn:Hc.
    + destruct (register_new_user_none name n w Hr Hc)
        as (w' & Hreg & _ & _ & Hfeed & Hopen).
      exists false, w'. split; [done|]. split; [|done].
      split; [done|]. by intros [? _].
    + assert (Hne : candidates n (feed (camera w)) ≠ []) by by rewrite Hc.
      destruct (register_new_user_some name n w Hfree Hr Hne)
        as (i & e & w' & _ & _ & _ & Hreg & _ & _ & _ & _ & _ & Hfeed
            & Hopen).
      exists true, w'. split; [done|]. split; [|done].
      split; [done|]. done.
Qed.

(** Three attempts on a feed of four frames, none raising; and three
    attempts on a face followed by an empty image. *)
Lemma X16_register_reads_until_a_frame_raises_witness :
  let w := @world_of LineVision [] [] None NoFault
             [Some [1%Q]; None; Some [2%Q]; Some [3%Q]] in
  let v := @world_of LineVision [] [] None NoFault
             [Some [1%Q]; Some []; Some [2%Q]] in
  mutex_held (self w) = false
  ∧ attempts_raise 3 (feed (camera w)) = false
  ∧ (∃ b w',
       register_new_user "ada" 3 w = Returned b w'
       ∧ (b = true ↔ candidates 3 (feed (camera w)) ≠ []
                     ∧ attempts_raise 3 (feed (camera w)) = false)
       ∧ is_open (camera w') = false
       ∧ feed (camera w') = [Some [3%Q]])
  ∧ mutex_held (self v) = false
  ∧ attempts_raise 3 (feed (camera v)) = true
  ∧ ∃ b v',
      register_new_user "ada" 3 v = Returned b v'
      ∧ (b = true ↔ candidates 3 (feed (camera v)) ≠ []
                    ∧ attempts_raise 3 (feed (camera v)) = false)
      ∧ is_open (camera v') = false
      ∧ ∃ k frame,
          (k < 3)%nat
          ∧ feed (camera v) !! k = Some (Some frame)
          ∧ fr_raises frame = true
          ∧ (∀ j fr, (j < k)%nat → feed (camera v) !! j = Some fr →
                     attempt_raises fr = false)
          ∧ feed (camera v') = drop (S k) (feed (camera v)).
Proof.
  intros w v.
  assert (Hquiet : attempts_raise 3 (feed (camera w)) = false)
    by reflexivity.
  assert (Hloud : attempts_raise 3 (feed (camera v)) = true) by reflexivity.
  split; [reflexivity|]. split; [exact Hquiet|]. split.
  - destruct (@X16_register_reads_until_a_frame_raises LineVision "ada" 3 w eq_refl)
      as (b & w' & Hreg & Hb & Hopen & Hall & _).
    exact (ex_intro _ b (ex_intro _ w'
             (conj Hreg (conj Hb (conj Hopen (Hall Hquiet)))))).
  - split; [reflexivity|]. split; [exact Hloud|].
    destruct (@X16_register_reads_until_a_frame_raises LineVision "ada" 3 v eq_refl)
      as (b & v' & Hreg & Hb & Hopen & _ & Hstop).
    exact (ex_intro _ b (ex_intro _ v'
             (conj Hreg (conj Hb (conj Hopen (Hstop Hloud)))))).
Defined.

(** X17. After [register_new_user] has returned, [get_user_count] is one
    more than before and [get_all_users] is the former list followed by
    the new name when the answer was true, and both are as before when it
    was false. *)
Theorem X17_user_list_after_register `{Vision} (name : string) (n : nat)
    (w : World) :
  mutex_held (self w) = false →
  ∃ b w',
    register_new_user name n w = Returned b w'
    ∧ returned (get_user_count w')
      = Some (length (known_names (self w)) + (if b then 1 else 0))%nat
    ∧ returned (get_all_users w')
      = Some (known_names (self w) ++ (if b then [name] else [])).
Proof.
  intros Hfree.
  assert (Hfails : candidates n (feed (camera w)) = []
                   ∨ attempts_raise n (feed (camera w)) = true →
                   ∃ b w',
                     register_new_user name n w = Returned b w'
                     ∧ returned (get_user_count w')
                       = Some (length (known_names (self w))
                               + (if b then 1 else 0))%nat
                     ∧ returned (get_all_users w')
                       = Some (known_names (self w)
                               ++ (if b then [name] else []))).
  { intros Hwhy.
    destruct (register_new_user_fails name n w Hwhy)
      as (w' & -> & Hself & _).
    exists false, w'. split; [done|].
    unfold get_user_count, get_all_users. step. rewrite Hself.
    by rewrite Nat.add_0_r, app_nil_r. }
  destruct (attempts_raise n (feed (camera w))) eqn:Hr; [by apply Hfails; right|].
  destruct (candidates n (feed (camera w))) as [|c cs] eqn:Hc;
    [by apply Hfails; left|].
  assert (Hne : candidates n (feed (camera w)) ≠ []) by by rewrite Hc.
  destruct (register_new_user_some name n w Hfree Hr Hne)
    as (i & e & w' & _ & _ & _ & -> & _ & Hn & _).
  exists true, w'. split; [done|].
  unfold get_user_count, get_all_users. step. rewrite Hn.
  by rewrite length_app.
Qed.

Lemma X17_user_list_after_register_witness :
  let w := @world_of LineVision [0%Q] ["ada"] None NoFault [Some [3%Q]] in
  mutex_held (self w) = false
  ∧ ∃ b w',
      register_new_user "bob" 10 w = Returned b w'
      ∧ returned (get_user_count w')
        = Some (1 + (if b then 1 else 0))%nat
      ∧ returned (get_all_users w')
        = Some (["ada"] ++ (if b then ["bob"] else [])).
Proof.
  intros w. split; [reflexivity|].
  exact (@X17_user_list_after_register LineVision "bob" 10 w eq_refl).
Defined.

(** ** main.py: the loop of [VideoThread] *)

Lemma identified_is_stored_name `{Vision} (known : list Sig)
    (names : list string) (frame : Frame) (n : string) :
  identified known names frame = Some n → truthy n = true ∧ n ∈ names.
Proof.
  unfold identified. destruct (frame_size frame =? 0)%nat; [done|].
  destruct (fr_face_locations _) as [|l0 ls]; [done|].
  destruct (fr_face_encodings _ _) as [|q rest]; [done|].
  destruct (nearest_name known names q) as [m|] eqn:Hm; [|done].
  destruct (truthy m) eqn:Ht; [|done]. intros [= <-]. split; [done|].
  apply nearest_name_iff in Hm as (i & d & _ & _ & Hi).
  by eapply list_elem_of_lookup_2.
Qed.

Lemma run_cycle_spec `{Vision} (w : World) :
  (length (known_encodings (self w)) ≤ length (known_names (self w)))%nat →
  ∃ w',
    run_cycle w
    = Returned (emitted_for (known_encodings (self w)) (known_names (self w))
                  (match feed (camera w) with
                   | fr :: _ => fr
                   | [] => None
                   end)) w'
    ∧ known_encodings (self w') = known_encodings (self w)
    ∧ known_names (self w') = known_names (self w)
    ∧ disk w' = disk w
    ∧ feed (camera w') = tail (feed (camera w))
    ∧ is_open (camera w') = is_open (camera w).
Proof.
  intros Hlen. unfold run_cycle, mbind, M_bind, bind, cap_read.
  destruct (feed (camera w)) as [|[frame|] fd] eqn:Hfd;
    [by exists w| |].
  - match goal with |- context [identify_face _ ?x] => set (w0 := x) end.
    destruct (identify_face_returns frame w0 Hlen)
      as (w' & -> & He & Hn & _ & Hd & Hc).
    exists w'. unfold ret. split.
    + f_equal. unfold emitted_for. do 2 f_equal. subst w0. cbn [self].
      destruct (identified _ _ frame) as [n|] eqn:Hid; [|done].
      by destruct (identified_is_stored_name _ _ _ _ Hid) as [-> _].
    + rewrite He, Hn, Hd, Hc. subst w0. done.
  - eexists. split; [reflexivity|]. done.
Qed.

Lemma run_loop_spec `{Vision} (l : list nat) (acc : list signal)
    (w : World) :
  (length (known_encodings (self w)) ≤ length (known_names (self w)))%nat →
  ∃ w',
    for_fold l acc run_step w
    = Returned
        (acc ++ concat (map (emitted_for (known_encodings (self w))
                                         (known_names (self w)))
                            (take (length l) (feed (camera w))))) w'
    ∧ known_encodings (self w') = known_encodings (self w)
    ∧ known_names (self w') = known_names (self w)
    ∧ disk w' = disk w
    ∧ feed (camera w') = drop (length l) (feed (camera w))
    ∧ is_open (camera w') = is_open (camera w).
Proof.
  revert acc w. induction l as [|a l IH]; intros acc w Hlen.
  - exists w. cbn. by rewrite app_nil_r, drop_0.
  - cbn [for_fold]. unfold mbind, M_bind, bind.
    destruct (run_cycle_spec w Hlen)
      as (w1 & Hcycle & He & Hn & Hd & Hfeed & Hopen).
    assert (run_step a acc w
            = Returned (acc ++ emitted_for (known_encodings (self w))
                                 (known_names (self w))
                                 (match feed (camera w) with
                                  | fr :: _ => fr
                                  | [] => None
                                  end)) w1) as ->.
    { unfold run_step, mbind, M_bind, bind. by rewrite Hcycle. }
    match goal with |- context [for_fold l ?b _ w1] =>
      destruct (IH b w1) as (w2 & -> & He2 & Hn2 & Hd2 & Hfeed2 & Hopen2)
    end.
    { by rewrite He, Hn. }
    exists w2. rewrite He2, Hn2, Hd2, Hfeed2, Hopen2, He, Hn, Hd, Hfeed, Hopen.
    split; [|split; [done|split; [done|split; [done|split; [|done]]]]].
    + f_equal. rewrite <- app_assoc. f_equal. cbn [length].
      destruct (feed (camera w)) as [|fr fd]; cbn.
      * by rewrite take_nil.
      * done.
    + cbn [length].
      destruct (feed (camera w)); cbn [tail]; [by rewrite !drop_nil|done].
Qed.

(** X18. On a store that has a name for every signature, a run of the
    video thread that loops [cycles] times returns with the capture device
    released and the store and the disk as they were.  It makes one read
    per turn and emits, for each frame read and in this order, the frame
    and one [user_detected] signal; nothing is emitted for a failed read.
    The name sent is the one [identify_face] finds for that frame, which is
    either the empty string or a stored, non-empty name. *)
Theorem X18_video_thread_emits_per_frame `{Vision} (cycles : nat)
    (w : World) :
  (length (known_encodings (self w)) ≤ length (known_names (self w)))%nat →
  ∃ w',
    run cycles w
    = Returned
        (concat (map (emitted_for (known_encodings (self w))
                                  (known_names (self w)))
                     (take cycles (feed (camera w))))) w'
    ∧ known_encodings (self w') = known_encodings (self w)
    ∧ known_names (self w') = known_names (self w)
    ∧ disk w' = disk w
    ∧ feed (camera w') = drop cycles (feed (camera w))
    ∧ is_open (camera w') = false
    ∧ (∀ fr u,
         UserDetected u
         ∈ emitted_for (known_encodings (self w)) (known_names (self w)) fr →
         u = "" ∨ (truthy u = true ∧ u ∈ known_names (self w))).
Proof.
  intros Hlen. unfold run, mbind, M_bind, bind, video_capture.
  destruct (run_loop_spec (seq 0 cycles) []
              (with_camera (λ c, mkCamera (feed c) true) w) Hlen)
    as (w1 & -> & He & Hn & Hd & Hfeed & _).
  rewrite length_seq in *. unfold cap_release, ret.
  eexists. split; [reflexivity|]. cbn.
  split; [done|]. split; [done|]. split; [done|]. split; [done|].
  split; [done|].
  intros [frame|] u Hu; [|by apply elem_of_nil in Hu].
  unfold emitted_for in Hu.
  apply elem_of_cons in Hu as [[=]|Hu].
  apply list_elem_of_singleton in Hu as [= ->].
  destruct (identified _ _ frame) as [n|] eqn:Hid; [|by left].
  right. by eapply identified_is_stored_name.
Qed.

Lemma X18_video_thread_emits_per_frame_witness :
  let w := @world_of LineVision [0%Q] ["ada"] None NoFault
             [Some [0%Q]; None; Some [5%Q]; Some [0%Q]] in
  (length (known_encodings (self w)) ≤ length (known_names (self w)))%nat
  ∧ ∃ w',
      run 3 w
      = Returned [@FrameReady LineVision [0%Q]; UserDetected "ada";
                  @FrameReady LineVision [5%Q]; UserDetected ""] w'
      ∧ known_encodings (self w') = known_encodings (self w)
      ∧ known_names (self w') = known_names (self w)
      ∧ disk w' = disk w
      ∧ feed (camera w') = [Some [0%Q]]
      ∧ is_open (camera w') = false.
Proof.
  intros w.
  assert (Hlen : (length (known_encodings (self w))
                  ≤ length (known_names (self w)))%nat)
    by (vm_compute; apply le_n).
  split; [exact Hlen|].
  destruct (@X18_video_thread_emits_per_frame LineVision 3 w Hlen)
    as (w' & H1 & H2 & H3 & H4 & H5 & H6 & _).
  exact (ex_intro _ w' (conj H1 (conj H2 (conj H3 (conj H4 (conj H5 H6)))))).
Defined.

End FaceExtra.


(* ===================================================================== *)
(** * Properties of the main window                                       *)
(* ===================================================================== *)

Module MainSpec.
Import PyStr ChatbotSpec.

(** ** Stripped text *)

Lemma lower_char_keeps_space c : isspace (lower_char c) = isspace c.
Proof.
  destruct c as [b0 b1 b2 b3 b4 b5 b6 b7].
  by destruct b0, b1, b2, b3, b4, b5, b6, b7.
Qed.

Lemma rstrip_head c r :
  isspace c = false → ∃ r', rstrip (String c r) = String c r'.
Proof.
  intros Hc. simpl. destruct (rstrip r); [|by eexists].
  rewrite Hc. by eexists.
Qed.

Lemma lstrip_head s :
  lstrip s = "" ∨ ∃ c r, lstrip s = String c r ∧ isspace c = false.
Proof.
  induction s as [|c r IH]; [by left|]. simpl.
  destruct (isspace c) eqn:Hc; [done|]. right. by exists c, r.
Qed.

(** A stripped text is empty or begins with a character that is not
    white space. *)
Lemma strip_head s :
  strip s = "" ∨ ∃ c r, strip s = String c r ∧ isspace c = false.
Proof.
  unfold strip. destruct (lstrip_head s) as [->|(c & r & -> & Hc)];
    [by left|].
  right. destruct (rstrip_head c r Hc) as [r' ->]. by exists c, r'.
Qed.

Lemma lstrip_nonspace c r : isspace c = false → lstrip (String c r) = String c r.
Proof. intros Hc. simpl. by rewrite Hc. Qed.

Lemma rstrip_idemp s : rstrip (rstrip s) = rstrip s.
Proof.
  induction s as [|c r IH]; [done|]. simpl.
  destruct (rstrip r) as [|c' r'] eqn:E.
  - destruct (isspace c) eqn:Hc; [done|]. simpl. by rewrite Hc.
  - simpl. simpl in IH. by rewrite IH.
Qed.

Lemma strip_idemp s : strip (strip s) = strip s.
Proof.
  destruct (strip_head s) as [->|(c & r & Hs & Hc)]; [done|].
  rewrite Hs. unfold strip at 1. rewrite (lstrip_nonspace c r Hc).
  rewrite <- Hs. unfold strip. apply rstrip_idemp.
Qed.

(** Text that is not blank after stripping is not blank for the chatbot,
    which lowers and strips it again. *)
Lemma stripped_text_is_not_blank s :
  truthy (strip s) = true → truthy (strip (lower (strip s))) = true.
Proof.
  intros Hs. destruct (strip_head s) as [Hnil|(c & r & Heq & Hc)].
  { by rewrite Hnil in Hs. }
  rewrite Heq. cbn [lower]. unfold strip.
  rewrite lstrip_nonspace by (by rewrite lower_char_keeps_space).
  destruct (rstrip_head (lower_char c) (lower r)) as [r' ->];
    [by rewrite lower_char_keeps_space|done].
Qed.

Import Main.

(** ** The slot of [user_detected] *)

(** One delivery of [user_detected] shows no new line, or the welcome of
    a name that was not greeted before. *)
Lemma update_current_user_step (n : string) (win : Window) :
  chatbot (update_current_user n win) = chatbot win
  ∧ ((chat_display (update_current_user n win) = chat_display win
      ∧ user_greeted (update_current_user n win) = user_greeted win)
     ∨ (truthy n = true ∧ (n ∉ user_greeted win)
        ∧ chat_display (update_current_user n win)
          = chat_display win ++ [welcome_line n]
        ∧ user_greeted (update_current_user n win)
          = {[n]} ∪ user_greeted win)).
Proof.
  unfold update_current_user.
  destruct (bool_decide (Some n ≠ current_user win)); [|by split; [|left]].
  destruct (truthy n) eqn:Hn; [|by split; [|left]].
  case_bool_decide as Hg; cbn; (split; [done|]); [right|left]; done.
Qed.

(** X19. Over any sequence of [user_detected] deliveries, the lines added
    to the chat are the welcomes of pairwise distinct, non-empty names
    that had not been greeted before, in the order of their first
    appearance; these names are added to [user_greeted], and the chatbot
    is not touched.  So each user is welcomed at most once. *)
Theorem X19_each_user_welcomed_once (names : list string) (win : Window) :
  ∃ us : list string,
    NoDup us
    ∧ (∀ u, u ∈ us → u ∈ names ∧ truthy u = true ∧ u ∉ user_greeted win)
    ∧ chat_display (fold_left (λ w n, update_current_user n w) names win)
      = chat_display win ++ map welcome_line us
    ∧ user_greeted (fold_left (λ w n, update_current_user n w) names win)
      = user_greeted win ∪ list_to_set us
    ∧ chatbot (fold_left (λ w n, update_current_user n w) names win)
      = chatbot win.
Proof.
  revert win. induction names as [|n ns IH]; intros win.
  - exists []. cbn. split; [constructor|]. split; [by intros u ?%elem_of_nil|].
    rewrite app_nil_r. split; [done|]. split; [|done].
    apply set_eq. intros x. rewrite elem_of_union, elem_of_empty. tauto.
  - cbn [fold_left].
    destruct (IH (update_current_user n win))
      as (us & Hnd & Hus & Hdisp & Hgreet & Hbot).
    destruct (update_current_user_step n win)
      as [Hb [[Hd Hg]|(Hn & Hfresh & Hd & Hg)]].
    + exists us. split; [done|]. split.
      * intros u Hu. destruct (Hus u Hu) as (? & ? & ?).
        split; [by apply list_elem_of_further|]. by rewrite <- Hg.
      * by rewrite Hdisp, Hgreet, Hbot, Hd, Hg, Hb.
    + exists (n :: us). split.
      * apply NoDup_cons. split; [|done]. intros Hin.
        destruct (Hus n Hin) as (_ & _ & Hout). apply Hout.
        rewrite Hg. apply elem_of_union. left. by apply elem_of_singleton.
      * split.
        -- intros u [->|Hu]%elem_of_cons.
           ++ split; [apply list_elem_of_here|done].
           ++ destruct (Hus u Hu) as (? & ? & Hout).
              split; [by apply list_elem_of_further|]. split; [done|].
              intros Hg'. apply Hout. rewrite Hg.
              apply elem_of_union. by right.
        -- rewrite Hdisp, Hgreet, Hbot, Hd, Hg, Hb. cbn [map list_to_set].
           split; [by rewrite <- app_assoc|]. split; [|done].
           apply set_eq. intros x.
           rewrite !elem_of_union, elem_of_singleton. tauto.
Qed.

(** X20. The label and the current user agree: if the current user is
    none with the label "No user detected", or a non-empty name with the
    label "Hello, <name>!", the same holds after [update_current_user];
    the current user is never the empty string. *)
Theorem X20_label_follows_current_user (n : string) (win : Window) :
  match current_user win with
  | Some u => truthy u = true ∧ user_info_label win = "Hello, " +:+ u +:+ "!"
  | None => user_info_label win = "No user detected"
  end →
  match current_user (update_current_user n win) with
  | Some u =>
      truthy u = true
      ∧ user_info_label (update_current_user n win) = "Hello, " +:+ u +:+ "!"
  | None => user_info_label (update_current_user n win) = "No user detected"
  end
  ∧ current_user (update_current_user n win)
    = (if truthy n then Some n else None).
Proof.
  intros Hinv. unfold update_current_user.
  case_bool_decide as Hne.
  - destruct (truthy n) eqn:Hn; cbn; done.
  - assert (Hcur : current_user win = Some n).
    { destruct (decide (Some n = current_user win)); [done|].
      by destruct Hne. }
    rewrite Hcur in Hinv |- *. destruct Hinv as [-> Hl]. done.
Qed.

Lemma X20_label_follows_current_user_witness :
  user_info_label new_window = "No user detected"
  ∧ current_user (update_current_user "ada" new_window) = Some "ada"
  ∧ user_info_label (update_current_user "ada" new_window) = "Hello, ada!".
Proof.
  assert (Hinv : match current_user new_window with
                 | Some u => truthy u = true
                             ∧ user_info_label new_window
                               = "Hello, " +:+ u +:+ "!"
                 | None => user_info_label new_window = "No user detected"
                 end) by reflexivity.
  split; [exact Hinv|].
  destruct (X20_label_follows_current_user "ada" new_window Hinv)
    as [Hlabel Hcur].
  split; [exact Hcur|]. rewrite Hcur in Hlabel. exact (proj2 Hlabel).
Defined.

(** ** Sending a message *)

(** X21. [send_message] does nothing when the input line is blank.
    Otherwise it always shows exactly two new lines, the user's stripped
    text under the current user's name (or "User") and the chatbot's
    response under "Assistant", and empties the input line; the error line
    is never shown, and the text handed to the chatbot is never blank for
    it, so its "didn't catch that" branch is not taken from the window. *)
Theorem X21_send_message_shows_two_lines (e : Chatbot.Env)
    (exc_text : string) (win : Window) :
  (truthy (strip (input_line win)) = false →
   send_message e exc_text win = win)
  ∧ (truthy (strip (input_line win)) = true →
     truthy (strip (lower (strip (input_line win)))) = true
     ∧ ∃ r,
         (Chatbot.get_response e (strip (input_line win)) (current_user win)
            (chatbot win)).1 = Some r
         ∧ send_message e exc_text win
           = mkWindow (current_user win)
               (Chatbot.get_response e (strip (input_line win))
                  (current_user win) (chatbot win)).2
               (user_greeted win) (user_info_label win)
               (chat_display win
                ++ [Line (display_name (current_user win))
                         (strip (input_line win)) true;
                    Line "Assistant" r false])
               "" (dialogs win)).
Proof.
  split.
  - intros Hblank. unfold send_message. by rewrite Hblank.
  - intros Hmsg.
    pose proof (stripped_text_is_not_blank _ Hmsg) as Hlow.
    split; [done|]. unfold send_message. rewrite Hmsg. cbn [negb].
    unfold Chatbot.get_response, Chatbot.get_response_with.
    rewrite Hlow. cbn [negb].
    fold (Chatbot.canned
            (Chatbot._categorize_message
               (strip (lower (strip (input_line win)))))).
    destruct (ChatbotExtra.canned_choice e
                (strip (lower (strip (input_line win)))))
      as (base & -> & _).
    cbn [fst snd]. eexists. split; [reflexivity|].
    by rewrite <- app_assoc.
Qed.

Lemma X21_send_message_shows_two_lines_witness :
  let win := mkWindow (Some "ada") (Chatbot.Manager [] ∅) ∅ "Hello, ada!"
               [] "  Hello  " [] in
  truthy (strip (input_line win)) = true
  ∧ truthy (strip (lower (strip (input_line win)))) = true
  ∧ ∃ r,
      (Chatbot.get_response (Chatbot.Build_Env "12:00" 1) "Hello"
         (Some "ada") (Chatbot.Manager [] ∅)).1 = Some r
      ∧ chat_display
          (send_message (Chatbot.Build_Env "12:00" 1) "boom" win)
        = [Line "ada" "Hello" true; Line "Assistant" r false].
Proof.
  intros win.
  assert (Hmsg : truthy (strip (input_line win)) = true) by reflexivity.
  split; [exact Hmsg|].
  destruct (proj2 (X21_send_message_shows_two_lines
                     (Chatbot.Build_Env "12:00" 1) "boom" win) Hmsg)
    as (Hlow & r & Hr & Hsend).
  split; [exact Hlow|].
  exact (ex_intro _ r (conj Hr (f_equal chat_display Hsend))).
Defined.

(** ** Clearing the chat *)

(** X22. [clear_chat] empties the display and the set of greeted users
    and leaves the chatbot (its history and counters) and the current user
    as they are.  A user who stays in view is not welcomed again; one who
    leaves and is detected again is. *)
Theorem X22_clear_chat_rewelcomes_on_return (u : string) (win : Window) :
  current_user win = Some u →
  truthy u = true →
  chatbot (clear_chat win) = chatbot win
  ∧ current_user (clear_chat win) = Some u
  ∧ user_greeted (clear_chat win) = ∅
  ∧ chat_display (clear_chat win) = [Line "System" "Chat cleared." false]
  ∧ update_current_user u (clear_chat win) = clear_chat win
  ∧ chat_display
      (update_current_user u (update_current_user "" (clear_chat win)))
    = [Line "System" "Chat cleared." false; welcome_line u].
Proof.
  intros Hcur Hu. split; [done|]. split; [done|]. split; [done|].
  split; [done|]. split.
  - unfold update_current_user. cbn [current_user clear_chat].
    rewrite Hcur. rewrite bool_decide_false; [done|].
    intros Hne. by apply Hne.
  - assert (Hne : Some "" ≠ Some u) by (intros [= <-]; discriminate Hu).
    unfold update_current_user at 2. cbn [current_user clear_chat].
    rewrite Hcur. rewrite bool_decide_true by done. cbn [truthy].
    unfold update_current_user. cbn [current_user user_greeted chat_display].
    rewrite bool_decide_true by done. rewrite Hu.
    rewrite bool_decide_true by apply not_elem_of_empty. done.
Qed.

Lemma X22_clear_chat_rewelcomes_on_return_witness :
  let win := update_current_user "ada" new_window in
  current_user win = Some "ada"
  ∧ truthy "ada" = true
  ∧ update_current_user "ada" (clear_chat win) = clear_chat win
  ∧ chat_display
      (update_current_user "ada" (update_current_user "" (clear_chat win)))
    = [Line "System" "Chat cleared." false; welcome_line "ada"].
Proof.
  intros win.
  assert (Hcur : current_user win = Some "ada") by reflexivity.
  split; [exact Hcur|]. split; [reflexivity|].
  destruct (X22_clear_chat_rewelcomes_on_return "ada" win Hcur eq_refl)
    as (_ & _ & _ & _ & H5 & H6).
  exact (conj H5 H6).
Defined.

End MainSpec.


(* ===================================================================== *)
(** * Registration from the main window                                   *)
(* ===================================================================== *)

Module MainRegisterSpec.
Import PyStr FaceRecognition FaceSpec.

(** X23. The window's [register_new_user] reaches the face manager only
    with a name that is not blank, and hands it over stripped: a cancelled
    dialog or a blank name changes nothing and does not open the camera.
    Otherwise (mutex free) the registration runs under the stripped name
    with ten attempts; on success that name is stored, a "Successfully
    registered" line and an information box are shown with the name as it
    was typed, and on failure only a warning box is shown. *)
Theorem X23_window_registers_stripped_names `{Vision} (name : string)
    (ok : bool) (win : Main.Window) (w : World) :
  (ok = false ∨ truthy (strip name) = false →
   Main.register_new_user name ok win w = Returned win w)
  ∧ (ok = true → truthy (strip name) = true →
     mutex_held (self w) = false →
     strip (strip name) = strip name
     ∧ ∃ b win' w',
         register_new_user (strip name) 10 w = Returned b w'
         ∧ Main.register_new_user name ok win w = Returned win' w'
         ∧ Main.chatbot win' = Main.chatbot win
         ∧ (b = true →
            known_names (self w') = known_names (self w) ++ [strip name]
            ∧ Main.chat_display win'
              = Main.chat_display win
                ++ [Main.Line "System"
                      ("Successfully registered " +:+ name +:+ "!") false]
            ∧ Main.dialogs win'
              = Main.dialogs win
                ++ [Main.Information "Success"
                      ("User " +:+ name +:+ " registered successfully!")])
         ∧ (b = false →
            known_names (self w') = known_names (self w)
            ∧ Main.chat_display win' = Main.chat_display win
            ∧ Main.dialogs win'
              = Main.dialogs win
                ++ [Main.Warning "Error"
                      "Failed to register user. Make sure your face is visible in the camera."])).
Proof.
  split.
  - intros Hno. unfold Main.register_new_user.
    destruct Hno as [-> | ->]; [done|]. by rewrite andb_false_r.
  - intros -> Hname Hfree.
    split; [apply MainSpec.strip_idemp|].
    unfold Main.register_new_user. rewrite Hname. cbn [andb].
    unfold register_user, mbind, M_bind, bind.
    destruct (decide (candidates 10 (feed (camera w)) = []
                      ∨ attempts_raise 10 (feed (camera w)) = true))
      as [Hwhy|Hgo].
    + destruct (register_new_user_fails (strip name) 10 w Hwhy)
        as (w' & -> & Hself & _).
      eexists false, _, w'. split; [done|]. split; [reflexivity|].
      cbn. split; [done|]. split; [done|]. intros _. by rewrite Hself.
    + assert (Hne : candidates 10 (feed (camera w)) ≠ [])
        by (intros Hc; apply Hgo; by left).
      assert (Hr : attempts_raise 10 (feed (camera w)) = false)
        by (destruct (attempts_raise 10 (feed (camera w))); [|done];
            exfalso; apply Hgo; by right).
      destruct (register_new_user_some (strip name) 10 w Hfree Hr Hne)
        as (i & e & w' & _ & _ & _ & -> & _ & Hn & _).
      eexists true, _, w'. split; [done|]. split; [reflexivity|].
      cbn. split; [done|]. split; [|done]. intros _. by rewrite Hn.
Qed.

Lemma X23_window_registers_stripped_names_witness :
  let w := @world_of LineVision [] [] None NoFault [Some [1%Q]] in
  truthy (strip "  ada ") = true
  ∧ mutex_held (self w) = false
  ∧ strip (strip "  ada ") = strip "  ada "
  ∧ ∃ b win' w',
      register_new_user (strip "  ada ") 10 w = Returned b w'
      ∧ Main.register_new_user "  ada " true Main.new_window w
        = Returned win' w'.
Proof.
  intros w.
  assert (Hname : truthy (strip "  ada ") = true) by reflexivity.
  assert (Hfree : mutex_held (self w) = false) by reflexivity.
  split; [exact Hname|]. split; [exact Hfree|].
  destruct (proj2 (@X23_window_registers_stripped_names LineVision "  ada "
                     true Main.new_window w) eq_refl Hname Hfree)
    as (Hidem & b & win' & w' & Hreg & Hwin & _).
  split; [exact Hidem|].
  exact (ex_intro _ b (ex_intro _ win' (ex_intro _ w' (conj Hreg Hwin)))).
Defined.

End MainRegisterSpec.
